(** * Trace Downstream: a shallow embedding of [Scripts/trace_downstream.py]

    The traversal core of the tool: the D8 step ([move_to_next_pixel]), the
    two georeferencing conversions, the elevation lookup and the [while]
    loop of [trace_downstream_main], with the properties of the design
    document stated over them; then the loop over the seeds, [get_has_z]
    and [TraceDownstream.execute], with further properties read off the
    code.

    Conventions of the embedding.
    - Python integers are [Z]; row and column indices are never wrapped.
    - Map coordinates and elevations are Python floats.  They are modelled
      as rationals [Q]: every finite double is a rational, rounding of the
      individual operations is not modelled, and the order of the
      operations is kept as written.  Nothing is stated that holds only
      because the arithmetic is exact (equal spacing of the centres, the
      cell that contains a seed).
    - A numpy array is a list of rows; subscripting follows numpy: a negative
      index counts from the end, anything else out of range raises
      [IndexError].
    - Exceptions are explicit ([result]); the loop is run with fuel, and
      [OutOfFuel] means "still running".
    - The cells handed to the elevation lookup are recorded in a ghost log
      (a writer effect), one entry per lookup, in program order.
    - Strings are ASCII, and [upper] is [str.upper] on them. *)

From Stdlib Require Import Ascii String.
From Stdlib Require Import ZArith QArith Qabs Qround List Bool Lia.
Import ListNotations.
Open Scope Z_scope.

(** ** Exceptions and results *)

Inductive exn : Set :=
| IndexError
| ZeroDivisionError.

Inductive result (A : Type) : Type :=
| Ok (a : A)
| Raise (e : exn)
| OutOfFuel.

Arguments Ok {A} a.
Arguments Raise {A} e.
Arguments OutOfFuel {A}.

Definition rbind {A B : Type} (m : result A) (k : A -> result B) : result B :=
  match m with
  | Ok a => k a
  | Raise e => Raise e
  | OutOfFuel => OutOfFuel
  end.

Notation "'let?' x ':=' m 'in' k" := (rbind m (fun x => k))
  (at level 10, x pattern, m at level 100, k at level 200).

(** ** The ghost log of elevation lookups *)

Definition cell : Type := (Z * Z)%type.

Definition M (A : Type) : Type := (result A * list cell)%type.

Definition ret {A : Type} (a : A) : M A := (Ok a, []).

Definition lift {A : Type} (r : result A) : M A := (r, []).

Definition tell (c : cell) : M unit := (Ok tt, [c]).

Definition bind {A B : Type} (m : M A) (k : A -> M B) : M B :=
  match m with
  | (Ok a, l) => let (r, l') := k a in (r, l ++ l')
  | (Raise e, l) => (Raise e, l)
  | (OutOfFuel, l) => (OutOfFuel, l)
  end.

Notation "'let!' x ':=' m 'in' k" := (bind m (fun x => k))
  (at level 10, x pattern, m at level 100, k at level 200).

(** ** numpy arrays *)

Definition ndarray (A : Type) : Type := list (list A).

(** One axis of a numpy subscript: [i < 0] is taken from the end, and an
    index still outside [0, n) raises [IndexError]. *)
Definition np_item {A : Type} (l : list A) (i : Z) : result A :=
  let n := Z.of_nat (length l) in
  let j := if i <? 0 then i + n else i in
  if (j <? 0) || (n <=? j) then Raise IndexError
  else match nth_error l (Z.to_nat j) with
       | Some a => Ok a
       | None => Raise IndexError
       end.

(** [a[row, col]] *)
Definition getitem {A : Type} (a : ndarray A) (row col : Z) : result A :=
  let? r := np_item a row in np_item r col.

(** [numpy.shape(a) == (rows, cols)] *)
Definition has_shape {A : Type} (a : ndarray A) (rows cols : Z) : bool :=
  (Z.of_nat (length a) =? rows) &&
  forallb (fun r => Z.of_nat (length r) =? cols) a.

(** ** Floats *)

(** [a / b] on Python floats. *)
Definition float_div (a b : Q) : result Q :=
  if Qeq_bool b 0 then Raise ZeroDivisionError else Ok (a / b)%Q.

(** [int(x)] on a Python float: truncation toward zero. *)
Definition float_int (x : Q) : Z := Z.quot (Qnum x) (Zpos (Qden x)).

(** ** arcpy points *)

(** [arcpy.Point(X, Y, Z)]; the third coordinate is named [Zc] here, [Z]
    being the type of integers. *)
Record Point : Type := mkPoint { X : Q; Y : Q; Zc : Q }.

(** ** The flow step: [move_to_next_pixel], lines 50-92 *)

Definition move_to_next_pixel (fdr : ndarray Z) (row col : Z) : result cell :=
  let? value := getitem fdr row col in
  if value =? 1 then Ok (row, col + 1)
  else if value =? 2 then Ok (row + 1, col + 1)
  else if value =? 4 then Ok (row + 1, col)
  else if value =? 8 then Ok (row + 1, col - 1)
  else if value =? 16 then Ok (row, col - 1)
  else if value =? 32 then Ok (row - 1, col - 1)
  else if value =? 64 then Ok (row - 1, col)
  else if value =? 128 then Ok (row - 1, col + 1)
  else Ok (row, col).

(** ** Georeferencing: [get_coord_x], [get_coord_y], lines 95-112 *)

Definition get_coord_x (col : Z) (cell_width : Q) (upper_left : Point) : Q :=
  (X upper_left + (inject_Z (col - 1) * cell_width) + (cell_width / 2))%Q.

Definition get_coord_y (row : Z) (cell_height : Q) (upper_left : Point) : Q :=
  (Y upper_left - (inject_Z (row - 1) * cell_height) - (cell_height / 2))%Q.

(** ** The locals of [trace_downstream_main] the traversal reads

    [fill] is [None] when [surface_raster] is [None]. *)
Record env : Type := mkEnv {
  cell_width : Q;
  cell_height : Q;
  max_row : Z;
  max_col : Z;
  upper_left : Point;
  fdr : ndarray Z;
  fill : option (ndarray Q)
}.

(** Lines 180-181: the raster indices of a map point, column first. *)
Definition point_to_cell (e : env) (pnt : Q * Q) : result cell :=
  let? qc := float_div (X (upper_left e) - fst pnt) (cell_width e) in
  let col := Z.abs (float_int qc) in
  let? qr := float_div (Y (upper_left e) - snd pnt) (cell_height e) in
  let row := Z.abs (float_int qr) in
  Ok (row, col).

(** Lines 186-190 and 203-207: the Z value of the surface at (row, col),
    or 0 without a surface raster.  The cell is logged. *)
Definition sample_z (fill : option (ndarray Q)) (row col : Z) : M Q :=
  let! _ := tell (row, col) in
  match fill with
  | Some a => lift (getitem a row col)
  | None => ret 0%Q
  end.

(** ** The trace loop, lines 196-224 *)

Record loop_state : Type := mkState {
  st_row : Z;
  st_col : Z;
  st_array : list Point
}.

(** One pass through the body of [while not done]; the boolean is [done]
    as the body leaves it. *)
Definition loop_body (e : env) (st : loop_state) : M (loop_state * bool) :=
  let last_r := st_row st in
  let last_c := st_col st in
  let! (row, col) := lift (move_to_next_pixel (fdr e) (st_row st) (st_col st)) in
  let! point_z := sample_z (fill e) row col in
  let point_x := get_coord_x col (cell_width e) (upper_left e) in
  let point_y := get_coord_y row (cell_height e) (upper_left e) in
  let array := st_array st ++ [mkPoint point_x point_y point_z] in
  let done := false in
  let done := if (last_r =? row) && (last_c =? col) then true else done in
  let done := if (row <? 0) || (row >? max_row e) then true else done in
  let done := if (col <? 0) || (col >? max_col e) then true else done in
  ret (mkState row col array, done).

Fixpoint while_not_done (fuel : nat) (e : env) (st : loop_state)
  : M (list Point) :=
  match fuel with
  | O => (OutOfFuel, [])
  | S fuel' =>
      let! (st', done) := loop_body e st in
      if done then ret (st_array st') else while_not_done fuel' e st'
  end.

(** ** One seed: the body of [for read_row in read_cursor], lines 176-229 *)

(** A row of the output feature class: the polyline's vertices and
    [ORIG_FID]. *)
Record feature : Type := mkFeature { SHAPE : list Point; ORIG_FID : Z }.

Definition trace_seed (e : env) (fuel : nat) (read_row : (Q * Q) * Z)
  : M feature :=
  let pnt := fst read_row in
  let oid := snd read_row in
  let! (row, col) := lift (point_to_cell e pnt) in
  let! point_z := sample_z (fill e) row col in
  let array := [mkPoint (fst pnt) (snd pnt) point_z] in
  let! array := while_not_done fuel e (mkState row col array) in
  ret (mkFeature array oid).

(** ** All seeds, under the [try] of [trace_downstream_main] *)

Fixpoint for_read_cursor (e : env) (fuel : nat)
    (read_cursor : list ((Q * Q) * Z)) (inserted : list feature)
  : result unit * list feature :=
  match read_cursor with
  | [] => (Ok tt, inserted)
  | read_row :: rest =>
      match fst (trace_seed e fuel read_row) with
      | Ok f => for_read_cursor e fuel rest (inserted ++ [f])
      | Raise ex => (Raise ex, inserted)
      | OutOfFuel => (OutOfFuel, inserted)
      end
  end.

(** What a run leaves behind: the rows inserted in the output feature class
    and the exceptions reported through [arcpy.AddError] by the bare
    [except:] clause. *)
Record main_outcome : Type := mkOutcome {
  inserted_rows : list feature;
  python_errors : list exn
}.

Definition trace_downstream_main (e : env) (fuel : nat)
    (in_features : list ((Q * Q) * Z)) : result main_outcome :=
  match for_read_cursor e fuel in_features [] with
  | (Ok _, rows) => Ok (mkOutcome rows [])
  | (Raise ex, rows) => Ok (mkOutcome rows [ex])
  | (OutOfFuel, _) => OutOfFuel
  end.

(** ** Vocabulary of the properties *)

(** The valid index range of a [rows] x [cols] grid. *)
Definition in_range (rows cols : Z) (c : cell) : Prop :=
  0 <= fst c < rows /\ 0 <= snd c < cols.

(** At most one step outside the valid index range. *)
Definition near_range (rows cols : Z) (c : cell) : Prop :=
  -1 <= fst c <= rows /\ -1 <= snd c <= cols.

(** Identical or adjacent cells. *)
Definition adjacent (a b : cell) : Prop :=
  Z.abs (fst b - fst a) <= 1 /\ Z.abs (snd b - snd a) <= 1.

Fixpoint chain (c : cell) (cs : list cell) : Prop :=
  match cs with
  | [] => True
  | c' :: rest => adjacent c c' /\ chain c' rest
  end.

(** The centre vertex the loop emits for a cell, given its Z. *)
Definition center_of (e : env) (c : cell) (z : Q) : Point :=
  mkPoint (get_coord_x (snd c) (cell_width e) (upper_left e))
          (get_coord_y (fst c) (cell_height e) (upper_left e)) z.

(** What the elevation lookup returns at a cell, leaving the log aside. *)
Definition surface_value (fill : option (ndarray Q)) (c : cell) : result Q :=
  match fill with
  | Some a => getitem a (fst c) (snd c)
  | None => Ok 0%Q
  end.

(** The vertex the loop emits for a cell: its centre, with the surface
    value there. *)
Definition emitted (e : env) (c : cell) (v : Point) : Prop :=
  exists z, surface_value (fill e) c = Ok z /\ v = center_of e c z.

(** The test at the end of the loop body, as the design document lists it. *)
Definition stop_condition (e : env) (prev cur : cell) : Prop :=
  cur = prev \/ fst cur < 0 \/ fst cur > max_row e
  \/ snd cur < 0 \/ snd cur > max_col e.

(** ** Example rasters *)

Definition origin : Point := mkPoint 0 100 0.

(** The scenario of the design document: 5 x 5, cell size 10, east then
    south then a sink. *)
Definition scenario_fdr : ndarray Z :=
  [ [1; 4; 0; 0; 0];
    [0; 0; 0; 0; 0];
    [0; 0; 0; 0; 0];
    [0; 0; 0; 0; 0];
    [0; 0; 0; 0; 0] ].

Definition scenario : env := mkEnv 10 10 5 5 origin scenario_fdr None.

(** A single cell flowing north, with an elevation. *)
Definition north_env : env := mkEnv 10 10 1 1 origin [[64]] (Some [[5%Q]]).

(** A single sink, with an elevation. *)
Definition sink_env : env := mkEnv 10 10 1 1 origin [[0]] (Some [[7%Q]]).

(** Two cells flowing into each other. *)
Definition cycle_env : env := mkEnv 10 10 1 2 origin [[1; 16]] None.

(** A single cell flowing south. *)
Definition south_env : env := mkEnv 10 10 1 1 origin [[4]] None.

(** [trunc] as the design document uses it: the integer part, rounding
    toward zero. *)
Definition trunc (x : Q) : Z :=
  if Qle_bool 0 x then Qfloor x else Qceiling x.

(** ** The flow path of a trace *)

(** [cs] is what the loop visits from [c]: each cell is the step from the
    one before, the test at the end of the body lets every cell but the
    last through, and stops at the last. *)
Fixpoint flow_path (e : env) (c : cell) (cs : list cell) : Prop :=
  match cs with
  | [] => False
  | c' :: rest =>
      move_to_next_pixel (fdr e) (fst c) (snd c) = Ok c' /\
      match rest with
      | [] => stop_condition e c c'
      | _ :: _ => ~ stop_condition e c c' /\ flow_path e c' rest
      end
  end.

(** [cs] are steps from [c], none of which stops the loop. *)
Fixpoint flow_prefix (e : env) (c : cell) (cs : list cell) : Prop :=
  match cs with
  | [] => True
  | c' :: rest =>
      move_to_next_pixel (fdr e) (fst c) (snd c) = Ok c' /\
      ~ stop_condition e c c' /\ flow_prefix e c' rest
  end.

(** The vertices the loop emits for cells with given Z values. *)
Definition centers (e : env) (cs : list cell) (zs : list Q) : list Point :=
  map (fun cz => center_of e (fst cz) (snd cz)) (combine cs zs).

(** ** The output Z flag: [get_has_z], lines 115-124 *)

(** [str.upper] on one ASCII character. *)
Definition upper_ascii (c : ascii) : ascii :=
  let n := nat_of_ascii c in
  if (Nat.leb 97 n && Nat.leb n 122)%bool then ascii_of_nat (n - 32) else c.

(** [str.upper] on an ASCII string. *)
Fixpoint upper (s : string) : string :=
  match s with
  | EmptyString => EmptyString
  | String c rest => String (upper_ascii c) (upper rest)
  end.

(** [outputZFlag] is the value of [arcpy.env.outputZFlag]; [surface_raster]
    is [None] or the path of the surface raster. *)
Definition get_has_z (outputZFlag : string) (surface_raster : option string)
  : string :=
  let environment_value := upper outputZFlag in
  if (String.eqb environment_value "ENABLED"
      || String.eqb environment_value "DISABLED")%bool
  then environment_value
  else match surface_raster with
       | Some _ => "ENABLED"%string
       | None => "DISABLED"%string
       end.

(** ** The tool: [TraceDownstream.execute], lines 307-324 *)

(** What the tool reports through [arcpy.AddError] and
    [arcpy.AddIDMessage]. *)
Inductive tool_message : Type :=
| Must64bit
| IDMessage (id : Z)
| PythonError (ex : exn).

Inductive execute_outcome : Type :=
| Returned (rows : list feature) (messages : list tool_message)
| ExecuteError (messages : list tool_message)
| Propagated (ex : exn)
| Running.

(** [architecture] is [platform.architecture()[0]]; the rasters are
    already read into [e]. *)
Definition execute (architecture : string) (e : env) (fuel : nat)
    (in_features : list ((Q * Q) * Z)) : execute_outcome :=
  if negb (String.eqb architecture "64bit") then Returned [] [Must64bit]
  else
    let feature_count := Z.of_nat (length in_features) in
    if feature_count =? 0 then ExecuteError [IDMessage 90148]
    else match trace_downstream_main e fuel in_features with
         | Ok out =>
             Returned (inserted_rows out) (map PythonError (python_errors out))
         | Raise ex => Propagated ex
         | OutOfFuel => Running
         end.

(** A raster with a surface, for the examples: 2 x 2, flowing east along
    the first row and south-west from its end into a sink. *)
Definition slope_env : env :=
  mkEnv 10 10 2 2 origin [[1; 8]; [0; 0]] (Some [[4; 3]; [2; 1]]%Q).


(** Three seeds on the scenario raster, the second one east of it. *)
Definition three_seeds : list ((Q * Q) * Z) :=
  [((5, 95)%Q, 1); ((75, 95)%Q, 2); ((15, 85)%Q, 3)].

(** The eight D8 codes, and the code of the opposite direction. *)
Definition d8_codes : list Z := [1; 2; 4; 8; 16; 32; 64; 128].

Definition opposite (value : Z) : Z :=
  if value <? 16 then value * 16 else value / 16.

(** The value an array holds at a cell of its grid: row [fst c] and column
    [snd c] counted from 0, and no value at a cell that is not on the
    grid. *)
Definition grid_value {A : Type} (a : ndarray A) (c : cell) : option A :=
  if (0 <=? fst c) && (0 <=? snd c)
  then match nth_error a (Z.to_nat (fst c)) with
       | Some r => nth_error r (Z.to_nat (snd c))
       | None => None
       end
  else None.

(** Two rows, the first flowing north, with a surface. *)
Definition wrap_env : env :=
  mkEnv 10 10 2 1 origin [[64]; [0]] (Some [[10]; [20]]%Q).

(** * Properties *)

(** ** The result and log monads *)

Lemma rbind_Ok_inv {A B : Type} (m : result A) (k : A -> result B) (b : B) :
  rbind m k = Ok b -> exists a, m = Ok a /\ k a = Ok b.
Proof.
  destruct m as [a| |]; simpl; intros H; try discriminate.
  exists a; split; [reflexivity | exact H].
Qed.

Lemma bind_Ok_inv {A B : Type} (m : M A) (k : A -> M B) (b : B) (l : list cell) :
  bind m k = (Ok b, l) ->
  exists a l1 l2, m = (Ok a, l1) /\ k a = (Ok b, l2) /\ l = l1 ++ l2.
Proof.
  destruct m as [[a| |] l1]; simpl; try discriminate.
  destruct (k a) as [r l2] eqn:Hk. intros H; inversion H; subst.
  exists a, l1, l2. split; [reflexivity | split; [exact Hk | reflexivity]].
Qed.

Lemma bind_lift_Ok {A B : Type} (a : A) (k : A -> M B) :
  bind (lift (Ok a)) k = k a.
Proof. unfold bind, lift. destruct (k a); reflexivity. Qed.

Lemma bind_Ok {A B : Type} (a : A) (l : list cell) (k : A -> M B) :
  bind (Ok a, l) k = (fst (k a), l ++ snd (k a)).
Proof. unfold bind. destruct (k a); reflexivity. Qed.

(** ** numpy subscripts *)

Lemma np_item_Ok_range {A : Type} (l : list A) (i : Z) (a : A) :
  np_item l i = Ok a ->
  - Z.of_nat (length l) <= i < Z.of_nat (length l) /\ In a l.
Proof.
  unfold np_item. intros H.
  destruct (i <? 0) eqn:Hi;
    destruct ((_ <? 0) || (_ <=? _)) eqn:Hb; try discriminate;
    apply orb_false_iff in Hb; destruct Hb as [H1 H2];
    destruct (nth_error l _) eqn:Hn; try discriminate;
    inversion H; subst; apply nth_error_In in Hn; split; trivial; lia.
Qed.

Lemma np_item_total {A : Type} (l : list A) (i : Z) :
  0 <= i < Z.of_nat (length l) -> exists a, np_item l i = Ok a.
Proof.
  intros Hi. unfold np_item.
  replace (i <? 0) with false by lia.
  replace ((i <? 0) || (Z.of_nat (length l) <=? i)) with false by lia.
  destruct (nth_error l (Z.to_nat i)) eqn:Hn; [eauto|].
  apply nth_error_None in Hn. lia.
Qed.

Lemma np_item_beyond {A : Type} (l : list A) (i : Z) :
  Z.of_nat (length l) <= i -> np_item l i = Raise IndexError.
Proof.
  intros Hi. unfold np_item.
  replace (i <? 0) with false by lia.
  replace ((i <? 0) || (Z.of_nat (length l) <=? i)) with true by lia.
  reflexivity.
Qed.

Lemma np_item_cases {A : Type} (l : list A) (i : Z) :
  (exists a, np_item l i = Ok a) \/ np_item l i = Raise IndexError.
Proof.
  unfold np_item.
  destruct ((_ <? 0) || (_ <=? _)); [now right|].
  destruct (nth_error l _); [left; eauto | now right].
Qed.

Lemma getitem_cases {A : Type} (a : ndarray A) (row col : Z) :
  (exists v, getitem a row col = Ok v) \/ getitem a row col = Raise IndexError.
Proof.
  unfold getitem.
  destruct (np_item_cases a row) as [[r Hr] | Hr]; rewrite Hr; simpl;
    [apply np_item_cases | now right].
Qed.

(** Subscripts of an array of known shape. *)
Section Shape.
Context {A : Type} (a : ndarray A) (rows cols : Z).
Hypothesis Hshape : has_shape a rows cols = true.

Lemma has_shape_rows : Z.of_nat (length a) = rows.
Proof. unfold has_shape in Hshape. apply andb_true_iff in Hshape. lia. Qed.

Lemma has_shape_cols (r : list A) : In r a -> Z.of_nat (length r) = cols.
Proof.
  intros Hin. unfold has_shape in Hshape.
  apply andb_true_iff in Hshape. destruct Hshape as [_ H].
  rewrite forallb_forall in H. apply H in Hin. lia.
Qed.

Lemma getitem_Ok_range (row col : Z) (v : A) :
  getitem a row col = Ok v ->
  - rows <= row < rows /\ - cols <= col < cols.
Proof.
  intros H. unfold getitem in H.
  apply rbind_Ok_inv in H. destruct H as (r & Hr & Hc).
  apply np_item_Ok_range in Hr. destruct Hr as [Hr Hin].
  apply np_item_Ok_range in Hc. destruct Hc as [Hc _].
  rewrite has_shape_rows in Hr. rewrite (has_shape_cols _ Hin) in Hc.
  split; assumption.
Qed.

Lemma getitem_total (row col : Z) :
  0 <= row < rows -> 0 <= col < cols -> exists v, getitem a row col = Ok v.
Proof.
  intros Hr Hc. unfold getitem. rewrite <- has_shape_rows in Hr.
  destruct (np_item_total a row Hr) as [r Hi]. rewrite Hi. simpl.
  apply np_item_Ok_range in Hi. destruct Hi as [_ Hin].
  apply np_item_total. rewrite (has_shape_cols _ Hin). exact Hc.
Qed.

Lemma getitem_beyond (row col : Z) :
  0 <= row -> 0 <= col -> rows <= row \/ cols <= col ->
  getitem a row col = Raise IndexError.
Proof.
  intros Hr Hc Hout. unfold getitem.
  destruct (np_item_cases a row) as [[r Hi] | Hi]; rewrite Hi; simpl; trivial.
  pose proof (np_item_Ok_range _ _ _ Hi) as [Hrange Hin].
  rewrite has_shape_rows in Hrange.
  apply np_item_beyond. rewrite (has_shape_cols _ Hin). lia.
Qed.
End Shape.

(** ** The flow step *)

Lemma move_to_next_pixel_inv (a : ndarray Z) (row col : Z) (next : cell) :
  move_to_next_pixel a row col = Ok next ->
  (exists value, getitem a row col = Ok value) /\ adjacent (row, col) next.
Proof.
  unfold move_to_next_pixel. intros H.
  apply rbind_Ok_inv in H. destruct H as (value & Hv & H).
  split; [eauto|].
  repeat match type of H with
         | (if ?b then _ else _) = _ => destruct b
         end;
    inversion H; subst; unfold adjacent; simpl; lia.
Qed.

(** C1.  When the flow-direction array has a value at (row, col), the step
    returns the neighbour one cell away in the direction of the D8 code:
    1 east, 2 south-east, 4 south, 8 south-west, 16 west, 32 north-west,
    64 north, 128 north-east; for any other value it returns (row, col)
    unchanged. *)
Theorem move_to_next_pixel_table (a : ndarray Z) (row col value : Z) :
  getitem a row col = Ok value ->
  exists next,
    move_to_next_pixel a row col = Ok next /\
    (value = 1 -> next = (row, col + 1)) /\
    (value = 2 -> next = (row + 1, col + 1)) /\
    (value = 4 -> next = (row + 1, col)) /\
    (value = 8 -> next = (row + 1, col - 1)) /\
    (value = 16 -> next = (row, col - 1)) /\
    (value = 32 -> next = (row - 1, col - 1)) /\
    (value = 64 -> next = (row - 1, col)) /\
    (value = 128 -> next = (row - 1, col + 1)) /\
    (~ In value [1; 2; 4; 8; 16; 32; 64; 128] -> next = (row, col)).
Proof.
  intros Hv. unfold move_to_next_pixel. rewrite Hv. simpl rbind.
  destruct (value =? 1) eqn:E1;
    [|destruct (value =? 2) eqn:E2;
    [|destruct (value =? 4) eqn:E4;
    [|destruct (value =? 8) eqn:E8;
    [|destruct (value =? 16) eqn:E16;
    [|destruct (value =? 32) eqn:E32;
    [|destruct (value =? 64) eqn:E64;
    [|destruct (value =? 128) eqn:E128]]]]]]];
    eexists; (split; [reflexivity|]);
    repeat split; intros; try reflexivity; try lia;
    exfalso; simpl in *; lia.
Qed.

Lemma move_to_next_pixel_table_witness :
  exists next,
    move_to_next_pixel scenario_fdr 0 1 = Ok next /\
    (4 = 1 -> next = (0, 1 + 1)) /\
    (4 = 2 -> next = (0 + 1, 1 + 1)) /\
    (4 = 4 -> next = (0 + 1, 1)) /\
    (4 = 8 -> next = (0 + 1, 1 - 1)) /\
    (4 = 16 -> next = (0, 1 - 1)) /\
    (4 = 32 -> next = (0 - 1, 1 - 1)) /\
    (4 = 64 -> next = (0 - 1, 1)) /\
    (4 = 128 -> next = (0 - 1, 1 + 1)) /\
    (~ In 4 [1; 2; 4; 8; 16; 32; 64; 128] -> next = (0, 1)).
Proof. apply (move_to_next_pixel_table scenario_fdr 0 1 4). reflexivity. Defined.

(** ** Georeferencing *)

(** C4.  The centre coordinates of a cell are
    X = upper_left.X + (col - 1) * cell_width + cell_width / 2 and
    Y = upper_left.Y - (row - 1) * cell_height - cell_height / 2, with the
    operations in this order and the offset of one cell kept. *)
Theorem get_coord_formula (row col : Z) (cw ch : Q) (ul : Point) :
  get_coord_x col cw ul = (X ul + inject_Z (col - 1) * cw + cw / 2)%Q /\
  get_coord_y row ch ul = (Y ul - inject_Z (row - 1) * ch - ch / 2)%Q.
Proof. split; reflexivity. Qed.

Lemma float_int_trunc (x : Q) : float_int x = trunc x.
Proof.
  destruct x as [n d]. unfold float_int, trunc, Qceiling, Qfloor, Qle_bool.
  simpl. rewrite Z.mul_1_r.
  destruct (0 <=? n) eqn:Hn.
  - apply Z.quot_div_nonneg; lia.
  - assert (Hneg : n = - (- n)) by lia.
    rewrite Hneg at 1. rewrite Z.quot_opp_l by lia.
    rewrite Z.quot_div_nonneg by lia. reflexivity.
Qed.

Lemma float_int_abs (x : Q) : Z.abs (float_int x) = float_int (Qabs x).
Proof.
  destruct x as [n d]. unfold float_int. simpl.
  rewrite <- Z.quot_abs by lia. reflexivity.
Qed.

Lemma float_div_Ok (a b : Q) : ~ (b == 0)%Q -> float_div a b = Ok (a / b)%Q.
Proof.
  intros Hb. unfold float_div.
  destruct (Qeq_bool b 0) eqn:E; [|reflexivity].
  apply Qeq_bool_iff in E. contradiction.
Qed.

Lemma point_to_cell_nonneg (e : env) (pnt : Q * Q) (c : cell) :
  point_to_cell e pnt = Ok c -> 0 <= fst c /\ 0 <= snd c.
Proof.
  unfold point_to_cell. intros H.
  apply rbind_Ok_inv in H. destruct H as (qc & _ & H).
  apply rbind_Ok_inv in H. destruct H as (qr & _ & H).
  inversion H; subst; simpl. split; apply Z.abs_nonneg.
Qed.

(** C5.  With non-zero cell sizes, the raster indices of a seed point are
    col = trunc(abs((upper_left.X - x) / cell_width)) and
    row = trunc(abs((upper_left.Y - y) / cell_height)); nothing compares
    them with the dimensions of the grid, and a cell outside the grid can
    come out. *)
Theorem point_to_cell_formula :
  (forall (e : env) (pnt : Q * Q),
      ~ (cell_width e == 0)%Q -> ~ (cell_height e == 0)%Q ->
      point_to_cell e pnt =
      Ok (trunc (Qabs ((Y (upper_left e) - snd pnt) / cell_height e)),
          trunc (Qabs ((X (upper_left e) - fst pnt) / cell_width e))))
  /\ (exists (e : env) (pnt : Q * Q) (c : cell),
         has_shape (fdr e) (max_row e) (max_col e) = true /\
         point_to_cell e pnt = Ok c /\
         ~ in_range (max_row e) (max_col e) c).
Proof.
  split.
  - intros e pnt Hw Hh. unfold point_to_cell.
    rewrite (float_div_Ok _ _ Hw). simpl rbind.
    rewrite (float_div_Ok _ _ Hh). simpl rbind.
    rewrite !float_int_abs, !float_int_trunc. reflexivity.
  - exists scenario, (75, 95)%Q, (0, 7). repeat split.
    unfold in_range; simpl; lia.
Qed.

Lemma point_to_cell_formula_witness :
  point_to_cell scenario (5, 95)%Q =
  Ok (trunc (Qabs ((Y (upper_left scenario) - snd (5, 95)%Q) / cell_height scenario)),
      trunc (Qabs ((X (upper_left scenario) - fst (5, 95)%Q) / cell_width scenario))).
Proof.
  apply (proj1 point_to_cell_formula scenario (5, 95)%Q);
    intros H; vm_compute in H; discriminate.
Defined.

(** ** The loop body *)

Lemma sample_z_eq (f : option (ndarray Q)) (row col : Z) :
  sample_z f row col = (surface_value f (row, col), [(row, col)]).
Proof.
  unfold sample_z, surface_value, tell, bind, lift, ret. simpl.
  destruct f as [a|]; [destruct (getitem a row col)|]; reflexivity.
Qed.

Lemma loop_body_eq (e : env) (st : loop_state) :
  loop_body e st =
  match move_to_next_pixel (fdr e) (st_row st) (st_col st) with
  | Ok (row, col) =>
      match surface_value (fill e) (row, col) with
      | Ok z =>
          (Ok (mkState row col (st_array st ++ [center_of e (row, col) z]),
               ((st_row st =? row) && (st_col st =? col))
               || ((row <? 0) || (row >? max_row e))
               || ((col <? 0) || (col >? max_col e))),
           [(row, col)])
      | Raise ex => (Raise ex, [(row, col)])
      | OutOfFuel => (OutOfFuel, [(row, col)])
      end
  | Raise ex => (Raise ex, [])
  | OutOfFuel => (OutOfFuel, [])
  end.
Proof.
  unfold loop_body.
  destruct (move_to_next_pixel (fdr e) (st_row st) (st_col st)) as [[row col]| |];
    try reflexivity.
  rewrite bind_lift_Ok, sample_z_eq.
  destruct (surface_value (fill e) (row, col)) as [z| |]; try reflexivity.
  unfold bind, ret, center_of. simpl.
  destruct ((st_row st =? row) && (st_col st =? col));
    destruct ((row <? 0) || (row >? max_row e));
    destruct ((col <? 0) || (col >? max_col e)); reflexivity.
Qed.

Lemma loop_body_Ok (e : env) (st st' : loop_state) (done : bool) (log : list cell) :
  loop_body e st = (Ok (st', done), log) ->
  exists row col z,
    move_to_next_pixel (fdr e) (st_row st) (st_col st) = Ok (row, col) /\
    surface_value (fill e) (row, col) = Ok z /\
    st' = mkState row col (st_array st ++ [center_of e (row, col) z]) /\
    log = [(row, col)] /\
    done = ((st_row st =? row) && (st_col st =? col))
           || ((row <? 0) || (row >? max_row e))
           || ((col <? 0) || (col >? max_col e)).
Proof.
  rewrite loop_body_eq.
  destruct (move_to_next_pixel _ _ _) as [[row col]| |]; try discriminate.
  destruct (surface_value _ _) as [z| |] eqn:Hz; try discriminate.
  intros H; inversion H; subst. exists row, col, z.
  repeat split; assumption.
Qed.

(** C2.  An iteration that completes sets [done] exactly when the new cell
    is the previous one, or its row is below 0 or above [max_row], or its
    column is below 0 or above [max_col]; a row equal to [max_row] (or a
    column equal to [max_col]) alone does not stop the loop.  The loop ends
    right after the iteration when the test holds, returning the array with
    the vertex of the new cell in it, and goes on from the new cell when it
    does not.  The vertex is in the array whatever the test says, so the
    last vertex of a trace can belong to a cell outside the grid. *)
Theorem loop_exit_test :
  (forall (e : env) (st st' : loop_state) (done : bool) (log : list cell),
      loop_body e st = (Ok (st', done), log) ->
      (done = true <->
       stop_condition e (st_row st, st_col st) (st_row st', st_col st')) /\
      (exists z, st_array st' =
                 st_array st ++ [center_of e (st_row st', st_col st') z]) /\
      ((st_row st, st_col st) <> (st_row st', st_col st') ->
       0 <= st_row st' <= max_row e -> 0 <= st_col st' <= max_col e ->
       done = false) /\
      (forall fuel : nat,
          stop_condition e (st_row st, st_col st) (st_row st', st_col st') ->
          while_not_done (S fuel) e st = (Ok (st_array st'), log)) /\
      (forall fuel : nat,
          ~ stop_condition e (st_row st, st_col st) (st_row st', st_col st') ->
          while_not_done (S fuel) e st =
          (fst (while_not_done fuel e st'),
           log ++ snd (while_not_done fuel e st'))))
  /\ (exists (e : env) (seed : (Q * Q) * Z) (f : feature) (c : cell) (z : Q),
         has_shape (fdr e) (max_row e) (max_col e) = true /\
         fst (trace_seed e 1 seed) = Ok f /\
         last (SHAPE f) (mkPoint 0 0 0) = center_of e c z /\
         last (snd (trace_seed e 1 seed)) (0, 0) = c /\
         ~ in_range (max_row e) (max_col e) c).
Proof.
  split.
  - intros e st st' done log H.
    assert (Hloop : forall fuel : nat,
               while_not_done (S fuel) e st =
               (fst (if done then ret (st_array st')
                     else while_not_done fuel e st'),
                log ++ snd (if done then ret (st_array st')
                            else while_not_done fuel e st'))).
    { intros fuel. cbn [while_not_done]. rewrite H, bind_Ok. reflexivity. }
    apply loop_body_Ok in H.
    destruct H as (row & col & z & _ & _ & Hst & _ & Hdone).
    subst st'. cbn [st_row st_col st_array]. cbn [st_row st_col st_array] in Hloop.
    assert (Hiff : done = true <->
                   stop_condition e (st_row st, st_col st) (row, col)).
    { unfold stop_condition. simpl.
      rewrite Hdone, !orb_true_iff, andb_true_iff. split.
      * intros [[[Hr Hc] | [Hneg | Hbig]] | [Hneg | Hbig]].
        -- left. f_equal; lia.
        -- right; left; lia.
        -- right; right; left; lia.
        -- right; right; right; left; lia.
        -- right; right; right; right; lia.
      * intros [Heq | [H1 | [H1 | [H1 | H1]]]].
        -- inversion Heq. left; left; split; lia.
        -- left; right; left; lia.
        -- left; right; right; lia.
        -- right; left; lia.
        -- right; right; lia. }
    split; [exact Hiff|]. split; [exists z; reflexivity|].
    split; [|split].
    + intros Hmoved Hrow Hcol. rewrite Hdone.
      apply orb_false_iff; split; [apply orb_false_iff; split|].
      * apply andb_false_iff.
        destruct (Z.eq_dec (st_row st) row) as [Er|Er]; [|left; lia].
        destruct (Z.eq_dec (st_col st) col) as [Ec|Ec]; [|right; lia].
        exfalso. apply Hmoved. congruence.
      * apply orb_false_iff; split; lia.
      * apply orb_false_iff; split; lia.
    + intros fuel Hstop. rewrite Hloop. apply Hiff in Hstop. rewrite Hstop.
      simpl. rewrite app_nil_r. reflexivity.
    + intros fuel Hgo. rewrite Hloop.
      destruct done; [exfalso; apply Hgo, Hiff; reflexivity | reflexivity].
  - exists north_env, ((5, 95)%Q, 7), (mkFeature
      [mkPoint 5 95 5; center_of north_env (-1, 0) 5] 7), (-1, 0), 5%Q.
    repeat split. unfold in_range; simpl; lia.
Qed.

Lemma loop_exit_test_witness :
  (true = true <->
   stop_condition north_env (0, 0) (-1, 0)) /\
  (exists z, [center_of north_env (-1, 0) 5] =
             [] ++ [center_of north_env (-1, 0) z]) /\
  ((0, 0) <> (-1, 0) -> 0 <= -1 <= 1 -> 0 <= 0 <= 1 -> true = false) /\
  (forall fuel : nat,
      stop_condition north_env (0, 0) (-1, 0) ->
      while_not_done (S fuel) north_env (mkState 0 0 []) =
      (Ok [center_of north_env (-1, 0) 5], [(-1, 0)])) /\
  (forall fuel : nat,
      ~ stop_condition north_env (0, 0) (-1, 0) ->
      while_not_done (S fuel) north_env (mkState 0 0 []) =
      (fst (while_not_done fuel north_env
              (mkState (-1) 0 [center_of north_env (-1, 0) 5])),
       [(-1, 0)] ++
       snd (while_not_done fuel north_env
              (mkState (-1) 0 [center_of north_env (-1, 0) 5])))).
Proof.
  apply (proj1 loop_exit_test north_env (mkState 0 0 [])
           (mkState (-1) 0 [center_of north_env (-1, 0) 5]) true [(-1, 0)]).
  reflexivity.
Defined.

(** ** The whole trace *)

Lemma while_not_done_Ok (fuel : nat) (e : env) :
  forall (st : loop_state) (pts : list Point) (log : list cell),
    while_not_done fuel e st = (Ok pts, log) ->
    exists rest,
      pts = st_array st ++ rest /\ log <> [] /\
      Forall2 (emitted e) log rest /\
      chain (st_row st, st_col st) log.
Proof.
  induction fuel as [|fuel IH]; intros st pts log H; simpl in H;
    [discriminate|].
  apply bind_Ok_inv in H. destruct H as ([st' done] & l1 & l2 & Hb & Hk & ->).
  apply loop_body_Ok in Hb.
  destruct Hb as (row & col & z & Hmove & Hz & -> & -> & _).
  apply move_to_next_pixel_inv in Hmove. destruct Hmove as [_ Hadj].
  assert (Hem : emitted e (row, col) (center_of e (row, col) z))
    by (exists z; split; [assumption | reflexivity]).
  destruct done.
  - inversion Hk; subst. simpl.
    exists [center_of e (row, col) z].
    split; [reflexivity|]. split; [discriminate|].
    split; [constructor; [assumption | constructor] | split; [assumption | exact I]].
  - apply IH in Hk. simpl in Hk. destruct Hk as (rest & -> & _ & HF & Hch).
    exists (center_of e (row, col) z :: rest).
    rewrite <- app_assoc. simpl.
    split; [reflexivity|]. split; [discriminate|].
    split; [constructor; assumption | split; assumption].
Qed.

(** Fuel only bounds the run: once the loop has ended, by [done] or by an
    exception, more fuel changes nothing. *)
Lemma while_not_done_more_fuel (e : env) (fuel extra : nat) :
  forall (st : loop_state) (r : result (list Point)) (log : list cell),
    while_not_done fuel e st = (r, log) -> r <> OutOfFuel ->
    while_not_done (fuel + extra) e st = (r, log).
Proof.
  induction fuel as [|fuel IH]; intros st r log H Hr.
  - inversion H; subst. contradiction.
  - simpl in *.
    destruct (loop_body e st) as [[[st' done]| |] l1]; try exact H.
    rewrite bind_Ok in *. destruct done; [exact H|].
    destruct (while_not_done fuel e st') as [r' l'] eqn:Hw.
    simpl in H. inversion H; subst r log.
    rewrite (IH st' r' l' Hw Hr). reflexivity.
Qed.

Lemma trace_seed_more_fuel (e : env) (fuel extra : nat) (seed : (Q * Q) * Z)
    (r : result feature) (log : list cell) :
  trace_seed e fuel seed = (r, log) -> r <> OutOfFuel ->
  trace_seed e (fuel + extra) seed = (r, log).
Proof.
  destruct seed as [pnt oid]. unfold trace_seed. cbn [fst snd].
  destruct (point_to_cell e pnt) as [[row col]| |]; try (intros H _; exact H).
  rewrite !bind_lift_Ok, !sample_z_eq.
  destruct (surface_value (fill e) (row, col)) as [z| |];
    try (intros H _; exact H).
  rewrite !bind_Ok.
  match goal with
  | |- context [while_not_done fuel e ?s] =>
      destruct (while_not_done fuel e s) as [[pts| |] l] eqn:Hw
  end; intros H Hr.
  - rewrite (while_not_done_more_fuel e fuel extra _ _ _ Hw) by discriminate.
    exact H.
  - rewrite (while_not_done_more_fuel e fuel extra _ _ _ Hw) by discriminate.
    exact H.
  - simpl in H. inversion H; subst. contradiction.
Qed.

(** Runs [trace_seed] up to the loop, given the seed's cell. *)
Ltac enter_trace Hcell :=
  unfold trace_seed; cbn [fst snd];
  rewrite Hcell, bind_lift_Ok, sample_z_eq.

Lemma trace_seed_Ok (e : env) (fuel : nat) (pnt : Q * Q) (oid : Z)
    (f : feature) (log : list cell) :
  trace_seed e fuel (pnt, oid) = (Ok f, log) ->
  exists c0 z0 cells rest,
    point_to_cell e pnt = Ok c0 /\
    surface_value (fill e) c0 = Ok z0 /\
    log = c0 :: cells /\
    f = mkFeature (mkPoint (fst pnt) (snd pnt) z0 :: rest) oid /\
    cells <> [] /\
    Forall2 (emitted e) cells rest /\
    chain c0 cells.
Proof.
  unfold trace_seed. simpl fst. simpl snd. intros H.
  destruct (point_to_cell e pnt) as [[row col]| |] eqn:Hc; try discriminate.
  rewrite bind_lift_Ok, sample_z_eq in H.
  apply bind_Ok_inv in H. destruct H as (z0 & l1 & l2 & Hz & H & ->).
  inversion Hz; subst; clear Hz.
  apply bind_Ok_inv in H. destruct H as (pts & l3 & l4 & Hw & Hr & ->).
  inversion Hr; subst; clear Hr.
  apply while_not_done_Ok in Hw. simpl in Hw.
  destruct Hw as (rest & -> & Hne & HF & Hch).
  exists (row, col), z0, l3, rest. rewrite app_nil_r. simpl.
  repeat split; assumption.
Qed.

(** C3.  In every trace produced, the first vertex carries the seed's own
    X and Y; every later vertex carries the centre coordinates of its cell;
    and the cells of the vertices, the seed's cell first, form a sequence in
    which each cell is its predecessor or one of its eight neighbours. *)
Theorem trace_vertex_invariant (e : env) (fuel : nat) (pnt : Q * Q) (oid : Z)
    (f : feature) (log : list cell) :
  trace_seed e fuel (pnt, oid) = (Ok f, log) ->
  exists (first : Point) (rest : list Point) (c0 : cell) (cells : list cell),
    SHAPE f = first :: rest /\
    X first = fst pnt /\ Y first = snd pnt /\
    point_to_cell e pnt = Ok c0 /\ log = c0 :: cells /\
    Forall2 (fun c v =>
               X v = get_coord_x (snd c) (cell_width e) (upper_left e) /\
               Y v = get_coord_y (fst c) (cell_height e) (upper_left e))
            cells rest /\
    chain c0 cells.
Proof.
  intros H. apply trace_seed_Ok in H.
  destruct H as (c0 & z0 & cells & rest & Hc & _ & -> & -> & _ & HF & Hch).
  exists (mkPoint (fst pnt) (snd pnt) z0), rest, c0, cells. simpl.
  repeat split; try assumption.
  eapply Forall2_impl; [|exact HF].
  intros c v (z & _ & ->). split; reflexivity.
Qed.

Lemma trace_vertex_invariant_witness :
  exists (first : Point) (rest : list Point) (c0 : cell) (cells : list cell),
    [mkPoint 5 95 0; center_of scenario (0, 1) 0; center_of scenario (1, 1) 0;
     center_of scenario (1, 1) 0] = first :: rest /\
    X first = 5%Q /\ Y first = 95%Q /\
    point_to_cell scenario (5, 95)%Q = Ok c0 /\
    [(0, 0); (0, 1); (1, 1); (1, 1)] = c0 :: cells /\
    Forall2 (fun c v =>
               X v = get_coord_x (snd c) 10 origin /\
               Y v = get_coord_y (fst c) 10 origin)
            cells rest /\
    chain c0 cells.
Proof.
  apply (trace_vertex_invariant scenario 3%nat (5, 95)%Q 7
           (mkFeature [mkPoint 5 95 0; center_of scenario (0, 1) 0;
                       center_of scenario (1, 1) 0;
                       center_of scenario (1, 1) 0] 7)
           [(0, 0); (0, 1); (1, 1); (1, 1)]).
  reflexivity.
Defined.

(** C10.  A trace that is produced has at least two vertices: the body of
    the loop runs before [done] is first tested.  A seed whose cell does not
    move (a sink) gives exactly the seed point followed by the centre of
    that cell. *)
Theorem trace_has_two_vertices :
  (forall (e : env) (fuel : nat) (pnt : Q * Q) (oid : Z)
          (f : feature) (log : list cell),
      trace_seed e fuel (pnt, oid) = (Ok f, log) ->
      (2 <= length (SHAPE f))%nat)
  /\ (forall (e : env) (fuel : nat) (pnt : Q * Q) (oid : Z) (c0 : cell) (z0 : Q),
         point_to_cell e pnt = Ok c0 ->
         surface_value (fill e) c0 = Ok z0 ->
         move_to_next_pixel (fdr e) (fst c0) (snd c0) = Ok c0 ->
         trace_seed e (S fuel) (pnt, oid) =
         (Ok (mkFeature [mkPoint (fst pnt) (snd pnt) z0; center_of e c0 z0] oid),
          [c0; c0])).
Proof.
  split.
  - intros e fuel pnt oid f log H. apply trace_seed_Ok in H.
    destruct H as (c0 & z0 & cells & rest & _ & _ & _ & -> & Hne & HF & _).
    simpl. destruct HF; [contradiction | simpl; lia].
  - intros e fuel pnt oid [row col] z0 Hc Hz Hmove. simpl in Hmove.
    enter_trace Hc. rewrite Hz, bind_Ok.
    cbn [while_not_done]. rewrite loop_body_eq. simpl st_row. simpl st_col.
    rewrite Hmove, Hz, !Z.eqb_refl. reflexivity.
Qed.

Lemma trace_has_two_vertices_witness :
  (2 <= length [mkPoint 5 95 7; center_of sink_env (0, 0)%Z 7])%nat.
Proof.
  apply (proj1 trace_has_two_vertices sink_env 4%nat (5, 95)%Q 3
           (mkFeature [mkPoint 5 95 7; center_of sink_env (0, 0) 7] 3)
           [(0, 0); (0, 0)]).
  reflexivity.
Defined.

(** ** A flow raster with a cycle *)

Lemma cycle_loop_runs (fuel : nat) :
  forall st : loop_state,
    (st_row st, st_col st) = (0, 0) \/ (st_row st, st_col st) = (0, 1) ->
    fst (while_not_done fuel cycle_env st) = OutOfFuel /\
    length (snd (while_not_done fuel cycle_env st)) = fuel.
Proof.
  induction fuel as [|fuel IH]; intros [r c arr] Hcell; [split; reflexivity|].
  simpl in Hcell. cbn [while_not_done]. rewrite loop_body_eq.
  simpl st_row. simpl st_col. simpl st_array.
  destruct Hcell as [Hc | Hc]; inversion Hc; subst r c.
  - change (move_to_next_pixel (fdr cycle_env) 0 0) with (@Ok cell (0, 1)).
    cbn [surface_value fill cycle_env bind]. simpl orb.
    match goal with
    | |- context [while_not_done fuel cycle_env ?s] =>
        destruct (IH s) as [H1 H2]; [right; reflexivity|];
        destruct (while_not_done fuel cycle_env s) as [res l]
    end.
    simpl in *. subst res. split; [reflexivity | congruence].
  - change (move_to_next_pixel (fdr cycle_env) 0 1) with (@Ok cell (0, 0)).
    cbn [surface_value fill cycle_env bind]. simpl orb.
    match goal with
    | |- context [while_not_done fuel cycle_env ?s] =>
        destruct (IH s) as [H1 H2]; [left; reflexivity|];
        destruct (while_not_done fuel cycle_env s) as [res l]
    end.
    simpl in *. subst res. split; [reflexivity | congruence].
Qed.

(** C6.  There is a flow-direction grid with two cells of the grid flowing
    into each other on which the loop never ends: whatever the number of
    iterations allowed, the trace from a seed on one of them is still
    running, having made one more lookup at every iteration.  The test
    against the previous cell never fires, the cell two steps back being
    the one revisited. *)
Theorem cycle_never_terminates :
  exists (e : env) (seed : (Q * Q) * Z) (a b : cell),
    has_shape (fdr e) (max_row e) (max_col e) = true /\
    in_range (max_row e) (max_col e) a /\
    in_range (max_row e) (max_col e) b /\
    a <> b /\
    point_to_cell e (fst seed) = Ok a /\
    move_to_next_pixel (fdr e) (fst a) (snd a) = Ok b /\
    move_to_next_pixel (fdr e) (fst b) (snd b) = Ok a /\
    forall fuel : nat,
      fst (trace_seed e fuel seed) = OutOfFuel /\
      length (snd (trace_seed e fuel seed)) = S fuel.
Proof.
  exists cycle_env, ((5, 95)%Q, 7), (0, 0), (0, 1).
  split; [reflexivity|].
  split; [unfold in_range; simpl; lia|].
  split; [unfold in_range; simpl; lia|].
  split; [discriminate|].
  split; [reflexivity|]. split; [reflexivity|]. split; [reflexivity|].
  intros fuel. unfold trace_seed. simpl fst. simpl snd.
  match goal with
  | |- context [while_not_done fuel cycle_env ?s] =>
      destruct (cycle_loop_runs fuel s) as [H1 H2]; [left; reflexivity|];
      destruct (while_not_done fuel cycle_env s) as [res l]
  end.
  simpl in H1, H2. subst res. simpl. split; [reflexivity | congruence].
Qed.

(** ** Seeds outside the grid *)

Lemma surface_value_cases (f : option (ndarray Q)) (c : cell) :
  (exists z, surface_value f c = Ok z) \/ surface_value f c = Raise IndexError.
Proof.
  unfold surface_value. destruct f as [a|]; [apply getitem_cases | eauto].
Qed.

Lemma outside_beyond (rows cols : Z) (c : cell) :
  0 <= fst c -> 0 <= snd c -> ~ in_range rows cols c ->
  rows <= fst c \/ cols <= snd c.
Proof. unfold in_range. lia. Qed.

Lemma first_step_raises (e : env) (fuel : nat) (st : loop_state) :
  has_shape (fdr e) (max_row e) (max_col e) = true ->
  0 <= st_row st -> 0 <= st_col st ->
  ~ in_range (max_row e) (max_col e) (st_row st, st_col st) ->
  while_not_done (S fuel) e st = (Raise IndexError, []).
Proof.
  intros Hs Hr Hc Hout. cbn [while_not_done]. rewrite loop_body_eq.
  unfold move_to_next_pixel.
  rewrite (getitem_beyond _ _ _ Hs _ _ Hr Hc
             (outside_beyond _ _ (st_row st, st_col st) Hr Hc Hout)).
  reflexivity.
Qed.

(** C7, as the code has it.  A seed whose starting cell is outside the grid
    raises [IndexError] at its first array read, the elevation lookup
    before the loop or the flow-direction read of the first step, with no
    step taken and no bounds test reached.  No trace is produced: the
    handler of [trace_downstream_main] reports the error and the output
    receives no row for that seed. *)
Theorem out_of_range_start_raises (e : env) (fuel : nat) (pnt : Q * Q)
    (oid : Z) (c0 : cell) (others : list ((Q * Q) * Z)) :
  has_shape (fdr e) (max_row e) (max_col e) = true ->
  point_to_cell e pnt = Ok c0 ->
  ~ in_range (max_row e) (max_col e) c0 ->
  trace_seed e (S fuel) (pnt, oid) = (Raise IndexError, [c0]) /\
  trace_downstream_main e (S fuel) ((pnt, oid) :: others) =
  Ok (mkOutcome [] [IndexError]).
Proof.
  intros Hs Hc Hout.
  assert (Ht : trace_seed e (S fuel) (pnt, oid) = (Raise IndexError, [c0])).
  { pose proof (point_to_cell_nonneg _ _ _ Hc) as [Hr0 Hc0].
    destruct c0 as [row col]. simpl in Hr0, Hc0.
    enter_trace Hc.
    destruct (surface_value_cases (fill e) (row, col)) as [[z Hz] | Hz];
      rewrite Hz; [|reflexivity].
    rewrite bind_Ok, first_step_raises by assumption. reflexivity. }
  split; [exact Ht|].
  unfold trace_downstream_main. cbn [for_read_cursor]. rewrite Ht. reflexivity.
Qed.

Lemma out_of_range_start_raises_witness :
  trace_seed scenario 3 ((75, 95)%Q, 7) = (Raise IndexError, [(0, 7)]) /\
  trace_downstream_main scenario 3 [((75, 95)%Q, 7); ((5, 95)%Q, 8)] =
  Ok (mkOutcome [] [IndexError]).
Proof.
  apply (out_of_range_start_raises scenario 2%nat (75, 95)%Q 7 (0, 7)
           [((5, 95)%Q, 8)]).
  - reflexivity.
  - reflexivity.
  - unfold in_range; simpl; lia.
Defined.

(** C7 does not hold as worded.  On the 5 x 5 scenario grid the seed
    (75, 95) falls in column 7: the run raises [IndexError] as soon as the
    loop starts, no trace is returned whatever the fuel, and the tool
    inserts nothing and reports the exception. *)
Lemma out_of_range_seed_no_trace :
  has_shape (fdr scenario) (max_row scenario) (max_col scenario) = true /\
  point_to_cell scenario (75, 95)%Q = Ok (0, 7) /\
  ~ in_range (max_row scenario) (max_col scenario) (0, 7) /\
  fst (trace_seed scenario 1 ((75, 95)%Q, 7)) = Raise IndexError /\
  (forall (fuel : nat) (f : feature),
      fst (trace_seed scenario fuel ((75, 95)%Q, 7)) <> Ok f) /\
  trace_downstream_main scenario 1 [((75, 95)%Q, 7)] =
  Ok (mkOutcome [] [IndexError]).
Proof.
  split; [reflexivity|]. split; [reflexivity|].
  split; [unfold in_range; simpl; lia|].
  split; [reflexivity|]. split; [|reflexivity].
  intros [|fuel] f; discriminate.
Qed.

(** A seed inside the grid can raise as well: flowing off the south edge
    reaches row [max_row], which the test lets through, and the next
    flow-direction read is out of range. *)
Example south_edge_raises :
  point_to_cell south_env (5, 95)%Q = Ok (0, 0) /\
  trace_seed south_env 2 ((5, 95)%Q, 7) = (Raise IndexError, [(0, 0); (1, 0)]).
Proof. split; reflexivity. Qed.

(** ** Where the elevation lookup is called *)

Lemma loop_lookups_near_range (e : env) (fuel : nat) :
  has_shape (fdr e) (max_row e) (max_col e) = true ->
  forall st : loop_state,
    0 <= st_row st -> 0 <= st_col st ->
    Forall (near_range (max_row e) (max_col e))
           (snd (while_not_done fuel e st)).
Proof.
  intros Hs. induction fuel as [|fuel IH]; intros st Hr Hc; [constructor|].
  cbn [while_not_done]. rewrite loop_body_eq.
  destruct (move_to_next_pixel (fdr e) (st_row st) (st_col st))
    as [[row col]| |] eqn:Hmove; try constructor.
  apply move_to_next_pixel_inv in Hmove.
  destruct Hmove as [[v Hv] [Hadj1 Hadj2]]. simpl in Hadj1, Hadj2.
  destruct (getitem_Ok_range _ _ _ Hs _ _ _ Hv) as [Hrow Hcol].
  assert (Hnear : near_range (max_row e) (max_col e) (row, col))
    by (unfold near_range; simpl; lia).
  destruct (surface_value (fill e) (row, col)) as [z| |];
    try (constructor; [exact Hnear | constructor]).
  rewrite bind_Ok. simpl snd at 1.
  destruct ((st_row st =? row) && (st_col st =? col)
            || ((row <? 0) || (row >? max_row e))
            || ((col <? 0) || (col >? max_col e))) eqn:Hdone.
  - constructor; [exact Hnear | constructor].
  - constructor; [exact Hnear|]. apply IH; simpl; lia.
Qed.

(** C8, as the code has it.  The lookup before the loop is made at the
    seed's starting cell, unchecked.  Every lookup made inside the loop is
    at the cell just stepped to, before the bounds test: a cell at most one
    step outside the grid, row between -1 and [max_row] and column between
    -1 and [max_col] inclusive.  On a cell of the grid the lookup does not
    raise. *)
Theorem lookups_near_range (e : env) (fuel : nat) (pnt : Q * Q) (oid : Z) :
  has_shape (fdr e) (max_row e) (max_col e) = true ->
  match fill e with
  | Some a => has_shape a (max_row e) (max_col e) = true
  | None => True
  end ->
  (forall c0, point_to_cell e pnt = Ok c0 ->
              hd_error (snd (trace_seed e fuel (pnt, oid))) = Some c0) /\
  Forall (near_range (max_row e) (max_col e))
         (tl (snd (trace_seed e fuel (pnt, oid)))) /\
  (forall c, in_range (max_row e) (max_col e) c ->
             exists z, sample_z (fill e) (fst c) (snd c) = (Ok z, [c])).
Proof.
  intros Hs Hf.
  assert (Hlog : forall c0, point_to_cell e pnt = Ok c0 ->
            exists l, snd (trace_seed e fuel (pnt, oid)) = c0 :: l /\
                      Forall (near_range (max_row e) (max_col e)) l).
  { intros [row col] Hc.
    pose proof (point_to_cell_nonneg _ _ _ Hc) as [Hr0 Hc0]. simpl in Hr0, Hc0.
    enter_trace Hc.
    destruct (surface_value (fill e) (row, col)) as [z| |];
      try (eexists; split; [reflexivity | constructor]).
    rewrite bind_Ok. simpl snd at 1. eexists; split; [reflexivity|].
    match goal with
    | |- context [while_not_done fuel e ?s] =>
        pose proof (loop_lookups_near_range e fuel Hs s Hr0 Hc0) as Hl;
        destruct (while_not_done fuel e s) as [[pts| |] l]
    end; simpl in *; try rewrite app_nil_r; exact Hl. }
  split; [|split].
  - intros c0 Hc. destruct (Hlog c0 Hc) as (l & -> & _). reflexivity.
  - destruct (point_to_cell e pnt) as [c0| |] eqn:Hc.
    + destruct (Hlog c0 eq_refl) as (l & -> & Hl). exact Hl.
    + unfold trace_seed. cbn [fst snd]. rewrite Hc. constructor.
    + unfold trace_seed. cbn [fst snd]. rewrite Hc. constructor.
  - intros [row col] [Hr Hc]. simpl in Hr, Hc. rewrite sample_z_eq. simpl.
    unfold surface_value. destruct (fill e) as [a|]; [|eauto].
    destruct (getitem_total a _ _ Hf row col Hr Hc) as [z Hz].
    exists z. simpl. rewrite Hz. reflexivity.
Qed.

Lemma lookups_near_range_witness :
  (forall c0, point_to_cell north_env (5, 95)%Q = Ok c0 ->
              hd_error (snd (trace_seed north_env 1 ((5, 95)%Q, 7))) = Some c0) /\
  Forall (near_range 1 1) (tl (snd (trace_seed north_env 1 ((5, 95)%Q, 7)))) /\
  (forall c, in_range 1 1 c ->
             exists z, sample_z (Some [[5%Q]]) (fst c) (snd c) = (Ok z, [c])).
Proof.
  apply (lookups_near_range north_env 1%nat (5, 95)%Q 7); reflexivity.
Defined.

(** C8 does not hold as worded.  On a single cell flowing north the trace
    completes, and its second lookup is at row -1, outside the grid; numpy
    reads the last row there. *)
Lemma lookup_outside_grid :
  has_shape (fdr north_env) (max_row north_env) (max_col north_env) = true /\
  trace_seed north_env 1 ((5, 95)%Q, 7) =
  (Ok (mkFeature [mkPoint 5 95 5; center_of north_env (-1, 0) 5] 7),
   [(0, 0); (-1, 0)]) /\
  sample_z (fill north_env) (-1) 0 = (Ok 5%Q, [(-1, 0)]) /\
  ~ in_range (max_row north_env) (max_col north_env) (-1, 0).
Proof.
  split; [reflexivity|]. split; [reflexivity|]. split; [reflexivity|].
  unfold in_range; simpl; lia.
Qed.

(** * Further properties of the traversal *)

(** ** The path a trace follows *)

Lemma exit_flag_iff (e : env) (r c row col : Z) :
  ((r =? row) && (c =? col))
  || ((row <? 0) || (row >? max_row e))
  || ((col <? 0) || (col >? max_col e)) = true <->
  stop_condition e (r, c) (row, col).
Proof.
  unfold stop_condition. simpl.
  rewrite !orb_true_iff, andb_true_iff. split.
  - intros [[[Hr Hc] | [H | H]] | [H | H]];
      [left; f_equal; lia | | | | ]; right; lia.
  - intros [Heq | H]; [inversion Heq; left; left; lia|].
    destruct H as [H | [H | [H | H]]];
      [left; right; left | left; right; right | right; left | right; right];
      lia.
Qed.

Lemma loop_body_run (e : env) (st : loop_state) (c' : cell) (z : Q) :
  move_to_next_pixel (fdr e) (st_row st) (st_col st) = Ok c' ->
  surface_value (fill e) c' = Ok z ->
  exists done,
    loop_body e st =
    (Ok (mkState (fst c') (snd c') (st_array st ++ [center_of e c' z]), done),
     [c']) /\
    (done = true <-> stop_condition e (st_row st, st_col st) c').
Proof.
  intros Hmove Hz. destruct c' as [row col].
  rewrite loop_body_eq, Hmove, Hz. eexists. split; [reflexivity|].
  apply exit_flag_iff.
Qed.

Lemma while_not_done_path (e : env) (fuel : nat) :
  forall (st : loop_state) (pts : list Point) (log : list cell),
    while_not_done fuel e st = (Ok pts, log) ->
    flow_path e (st_row st, st_col st) log.
Proof.
  induction fuel as [|fuel IH]; intros st pts log H; simpl in H;
    [discriminate|].
  apply bind_Ok_inv in H. destruct H as ([st' done] & l1 & l2 & Hb & Hk & ->).
  apply loop_body_Ok in Hb.
  destruct Hb as (row & col & z & Hmove & Hz & -> & -> & Hdone).
  pose proof (exit_flag_iff e (st_row st) (st_col st) row col) as Hflag.
  rewrite <- Hdone in Hflag. destruct done.
  - inversion Hk; subst. simpl. split; [exact Hmove | apply Hflag; reflexivity].
  - apply IH in Hk. simpl st_row in Hk. simpl st_col in Hk.
    destruct l2 as [|c2 l2]; [contradiction|].
    simpl app. cbn [flow_path]. simpl fst. simpl snd.
    split; [exact Hmove|]. split; [|exact Hk].
    intros Hstop. apply Hflag in Hstop. discriminate.
Qed.

Lemma while_not_done_complete (e : env) (extra : nat) (cells : list cell) :
  forall (st : loop_state) (zs : list Q),
    flow_path e (st_row st, st_col st) cells ->
    Forall2 (fun c z => surface_value (fill e) c = Ok z) cells zs ->
    while_not_done (length cells + extra) e st =
    (Ok (st_array st ++ centers e cells zs), cells).
Proof.
  induction cells as [|c' rest IH]; intros st zs Hpath Hzs; [contradiction|].
  inversion Hzs as [|? z ? zs' Hz Hrest]; subst.
  cbn [flow_path] in Hpath. simpl fst in Hpath. simpl snd in Hpath.
  destruct Hpath as [Hmove Hpath].
  destruct (loop_body_run e st c' z Hmove Hz) as (done & Hb & Hdone).
  simpl length. simpl Nat.add. cbn [while_not_done]. rewrite Hb, bind_Ok.
  destruct rest as [|c'' rest].
  - inversion Hrest; subst.
    apply Hdone in Hpath. subst done. reflexivity.
  - destruct Hpath as [Hgo Hpath].
    destruct done; [exfalso; apply Hgo, Hdone; reflexivity|].
    specialize (IH (mkState (fst c') (snd c')
                      (st_array st ++ [center_of e c' z])) zs').
    simpl st_row in IH. simpl st_col in IH. simpl st_array in IH.
    rewrite <- surjective_pairing in IH.
    rewrite (IH Hpath Hrest). unfold centers. simpl.
    rewrite <- app_assoc. reflexivity.
Qed.

Lemma trace_seed_Ok_loop (e : env) (fuel : nat) (pnt : Q * Q) (oid : Z)
    (f : feature) (log : list cell) :
  trace_seed e fuel (pnt, oid) = (Ok f, log) ->
  exists c0 z0 pts cells,
    point_to_cell e pnt = Ok c0 /\
    surface_value (fill e) c0 = Ok z0 /\
    while_not_done fuel e
      (mkState (fst c0) (snd c0) [mkPoint (fst pnt) (snd pnt) z0]) =
    (Ok pts, cells) /\
    log = c0 :: cells /\ f = mkFeature pts oid.
Proof.
  unfold trace_seed. cbn [fst snd]. intros H.
  destruct (point_to_cell e pnt) as [[row col]| |] eqn:Hc; try discriminate.
  rewrite bind_lift_Ok, sample_z_eq in H.
  apply bind_Ok_inv in H. destruct H as (z0 & l1 & l2 & Hz & H & ->).
  inversion Hz; subst; clear Hz.
  apply bind_Ok_inv in H. destruct H as (pts & l3 & l4 & Hw & Hr & ->).
  inversion Hr; subst; clear Hr.
  exists (row, col), z0, pts, l3. rewrite app_nil_r.
  repeat split; assumption.
Qed.

(** X1.  A produced trace follows the flow directions: its cells start at
    the seed's cell, each next cell is the step [move_to_next_pixel] takes
    from the one before, the end-of-body test lets every step but the last
    continue, and stops at the last. *)
Theorem trace_follows_flow (e : env) (fuel : nat) (pnt : Q * Q) (oid : Z)
    (f : feature) (log : list cell) :
  trace_seed e fuel (pnt, oid) = (Ok f, log) ->
  exists (c0 : cell) (cells : list cell),
    point_to_cell e pnt = Ok c0 /\ log = c0 :: cells /\
    flow_path e c0 cells /\ ORIG_FID f = oid /\
    length (SHAPE f) = length log.
Proof.
  intros H. pose proof (trace_seed_Ok _ _ _ _ _ _ H) as Hshape.
  apply trace_seed_Ok_loop in H.
  destruct H as (c0 & z0 & pts & cells & Hc & _ & Hw & -> & ->).
  exists c0, cells. apply while_not_done_path in Hw.
  simpl in Hw. rewrite <- surjective_pairing in Hw.
  repeat split; try assumption.
  destruct Hshape as (c1 & z1 & cells1 & rest & _ & _ & Hlog & Hf & _ & HF & _).
  inversion Hlog; subst cells1. inversion Hf; subst pts. simpl.
  f_equal. symmetry. eapply Forall2_length; exact HF.
Qed.

Lemma trace_follows_flow_witness :
  exists (c0 : cell) (cells : list cell),
    point_to_cell scenario (5, 95)%Q = Ok c0 /\
    [(0, 0); (0, 1); (1, 1); (1, 1)] = c0 :: cells /\
    flow_path scenario c0 cells /\
    ORIG_FID (mkFeature [mkPoint 5 95 0; center_of scenario (0, 1) 0;
                         center_of scenario (1, 1) 0;
                         center_of scenario (1, 1) 0] 7) = 7 /\
    length (SHAPE (mkFeature [mkPoint 5 95 0; center_of scenario (0, 1) 0;
                              center_of scenario (1, 1) 0;
                              center_of scenario (1, 1) 0] 7)) =
    length [(0, 0); (0, 1); (1, 1); (1, 1)].
Proof.
  apply (trace_follows_flow scenario 3%nat (5, 95)%Q 7
           (mkFeature [mkPoint 5 95 0; center_of scenario (0, 1) 0;
                       center_of scenario (1, 1) 0;
                       center_of scenario (1, 1) 0] 7)
           [(0, 0); (0, 1); (1, 1); (1, 1)]).
  reflexivity.
Defined.

(** X2.  Conversely, when the flow from the seed's cell reaches a stop
    after finitely many steps and the surface has a value at every cell on
    the way, the trace is produced as soon as the loop may run that many
    times: the seed point, then the centre of every cell of the path with
    the surface value there. *)
Theorem flow_path_gives_trace (e : env) (extra : nat) (pnt : Q * Q) (oid : Z)
    (c0 : cell) (z0 : Q) (cells : list cell) (zs : list Q) :
  point_to_cell e pnt = Ok c0 ->
  surface_value (fill e) c0 = Ok z0 ->
  flow_path e c0 cells ->
  Forall2 (fun c z => surface_value (fill e) c = Ok z) cells zs ->
  trace_seed e (length cells + extra) (pnt, oid) =
  (Ok (mkFeature (mkPoint (fst pnt) (snd pnt) z0 :: centers e cells zs) oid),
   c0 :: cells).
Proof.
  intros Hc Hz0 Hpath Hzs. destruct c0 as [row col].
  enter_trace Hc. rewrite Hz0, bind_Ok.
  rewrite (while_not_done_complete e extra cells _ zs); [|exact Hpath|exact Hzs].
  rewrite bind_Ok. simpl. rewrite app_nil_r. reflexivity.
Qed.

Lemma flow_path_gives_trace_witness :
  trace_seed slope_env (length [(0, 1); (1, 0); (1, 0)] + 4) ((5, 95)%Q, 9) =
  (Ok (mkFeature (mkPoint 5 95 4 ::
                  centers slope_env [(0, 1); (1, 0); (1, 0)] [3; 2; 2]%Q) 9),
   [(0, 0); (0, 1); (1, 0); (1, 0)]).
Proof.
  apply (flow_path_gives_trace slope_env 4%nat (5, 95)%Q 9 (0, 0) 4%Q
           [(0, 1); (1, 0); (1, 0)] [3; 2; 2]%Q).
  - reflexivity.
  - reflexivity.
  - simpl. unfold stop_condition. simpl.
    repeat split; try reflexivity; try (left; reflexivity);
      intros [H | H]; [discriminate | lia | discriminate | lia].
  - repeat constructor.
Defined.

(** ** Where a trace can go, and how it can end *)

Lemma step_from_nonneg (e : env) (c c' : cell) :
  has_shape (fdr e) (max_row e) (max_col e) = true ->
  0 <= fst c -> 0 <= snd c ->
  move_to_next_pixel (fdr e) (fst c) (snd c) = Ok c' ->
  in_range (max_row e) (max_col e) c /\
  adjacent c c' /\ near_range (max_row e) (max_col e) c'.
Proof.
  intros Hs Hr Hc Hmove. apply move_to_next_pixel_inv in Hmove.
  destruct Hmove as [[v Hv] Hadj].
  destruct (getitem_Ok_range _ _ _ Hs _ _ _ Hv) as [Hrow Hcol].
  rewrite <- surjective_pairing in Hadj.
  split; [unfold in_range; lia|]. split; [exact Hadj|].
  destruct Hadj as [H1 H2]. unfold near_range. lia.
Qed.

Lemma not_stop_nonneg (e : env) (c c' : cell) :
  ~ stop_condition e c c' -> 0 <= fst c' /\ 0 <= snd c'.
Proof. unfold stop_condition. intros H. lia. Qed.

Lemma flow_path_in_range (e : env) (cs : list cell) :
  has_shape (fdr e) (max_row e) (max_col e) = true ->
  forall c : cell,
    0 <= fst c -> 0 <= snd c -> flow_path e c cs ->
    Forall (in_range (max_row e) (max_col e)) (removelast (c :: cs)).
Proof.
  intros Hs. induction cs as [|c' rest IH]; intros c Hr Hc Hpath;
    [contradiction|].
  cbn [flow_path] in Hpath. destruct Hpath as [Hmove Hpath].
  destruct (step_from_nonneg e c c' Hs Hr Hc Hmove) as [Hin _].
  change (removelast (c :: c' :: rest)) with (c :: removelast (c' :: rest)).
  constructor; [exact Hin|].
  destruct rest as [|c'' rest]; [constructor|].
  destruct Hpath as [Hgo Hpath].
  destruct (not_stop_nonneg e c c' Hgo) as [Hr' Hc'].
  apply IH; assumption.
Qed.

Lemma flow_path_end (e : env) (cs : list cell) :
  has_shape (fdr e) (max_row e) (max_col e) = true ->
  forall c : cell,
    0 <= fst c -> 0 <= snd c -> flow_path e c cs ->
    exists pre a b,
      c :: cs = pre ++ [a; b] /\
      in_range (max_row e) (max_col e) a /\
      move_to_next_pixel (fdr e) (fst a) (snd a) = Ok b /\
      stop_condition e a b.
Proof.
  intros Hs. induction cs as [|c' rest IH]; intros c Hr Hc Hpath;
    [contradiction|].
  cbn [flow_path] in Hpath. destruct Hpath as [Hmove Hpath].
  destruct (step_from_nonneg e c c' Hs Hr Hc Hmove) as [Hin _].
  destruct rest as [|c'' rest].
  - exists [], c, c'.
    split; [reflexivity|]. split; [exact Hin|]. split; assumption.
  - destruct Hpath as [Hgo Hpath].
    destruct (not_stop_nonneg e c c' Hgo) as [Hr' Hc'].
    destruct (IH c' Hr' Hc' Hpath) as (pre & a & b & Heq & Ha & Hab & Hstop).
    exists (c :: pre), a, b. rewrite Heq.
    split; [reflexivity|]. split; [exact Ha|]. split; assumption.
Qed.

(** X3.  When the flow-direction array has the raster's dimensions, every
    cell of a produced trace except the last lies in the grid; in
    particular a trace is produced only for a seed whose cell is in the
    grid. *)
Theorem trace_cells_in_grid (e : env) (fuel : nat) (pnt : Q * Q) (oid : Z)
    (f : feature) (log : list cell) :
  has_shape (fdr e) (max_row e) (max_col e) = true ->
  trace_seed e fuel (pnt, oid) = (Ok f, log) ->
  Forall (in_range (max_row e) (max_col e)) (removelast log) /\
  exists c0, point_to_cell e pnt = Ok c0 /\
             in_range (max_row e) (max_col e) c0.
Proof.
  intros Hs H. apply trace_seed_Ok_loop in H.
  destruct H as (c0 & z0 & pts & cells & Hc & _ & Hw & -> & ->).
  apply while_not_done_path in Hw. simpl in Hw.
  rewrite <- surjective_pairing in Hw.
  destruct (point_to_cell_nonneg _ _ _ Hc) as [Hr0 Hc0].
  pose proof (flow_path_in_range e cells Hs c0 Hr0 Hc0 Hw) as HF.
  split; [exact HF|]. exists c0. split; [exact Hc|].
  destruct cells as [|c1 cells]; [contradiction|].
  change (removelast (c0 :: c1 :: cells))
    with (c0 :: removelast (c1 :: cells)) in HF.
  inversion HF; assumption.
Qed.

Lemma trace_cells_in_grid_witness :
  Forall (in_range 1 1) (removelast [(0, 0); (-1, 0)]) /\
  exists c0, point_to_cell north_env (5, 95)%Q = Ok c0 /\ in_range 1 1 c0.
Proof.
  apply (trace_cells_in_grid north_env 1%nat (5, 95)%Q 7
           (mkFeature [mkPoint 5 95 5; center_of north_env (-1, 0) 5] 7)
           [(0, 0); (-1, 0)]);
    reflexivity.
Defined.

(** X4.  When the flow-direction array has the raster's dimensions, a
    produced trace ends in one of two ways: on a cell of the grid that does
    not move (the last lookup repeats the cell before it, and the last
    vertex repeats the vertex before it when that one is a cell centre), or
    one step off the north or west edge, at row -1 or column -1.  The tests
    [row > max_row] and [col > max_col] never end a trace. *)
Theorem trace_ending (e : env) (fuel : nat) (pnt : Q * Q) (oid : Z)
    (f : feature) (log : list cell) :
  has_shape (fdr e) (max_row e) (max_col e) = true ->
  trace_seed e fuel (pnt, oid) = (Ok f, log) ->
  exists (pre : list cell) (a b : cell),
    log = pre ++ [a; b] /\
    in_range (max_row e) (max_col e) a /\
    move_to_next_pixel (fdr e) (fst a) (snd a) = Ok b /\
    (b = a \/ fst b = -1 \/ snd b = -1) /\
    fst b <= max_row e /\ snd b <= max_col e /\
    (b = a -> pre <> [] -> exists vs v, SHAPE f = vs ++ [v; v]).
Proof.
  intros Hs H. pose proof (trace_seed_Ok _ _ _ _ _ _ H) as Hshape.
  apply trace_seed_Ok_loop in H.
  destruct H as (c0 & z0 & pts & cells & Hc & _ & Hw & -> & ->).
  apply while_not_done_path in Hw. simpl in Hw.
  rewrite <- surjective_pairing in Hw.
  destruct (point_to_cell_nonneg _ _ _ Hc) as [Hr0 Hc0].
  destruct (flow_path_end e cells Hs c0 Hr0 Hc0 Hw)
    as (pre & a & b & Heq & Ha & Hab & Hstop).
  exists pre, a, b. split; [exact Heq|]. split; [exact Ha|].
  split; [exact Hab|].
  pose proof Ha as [Har Hac].
  destruct (step_from_nonneg e a b Hs (proj1 Har) (proj1 Hac) Hab)
    as (_ & [Hadj1 Hadj2] & _).
  split; [|split; [lia | split; [lia|]]].
  - destruct Hstop as [Heq' | Hout]; [left; exact Heq'|]. right. lia.
  - intros Hba Hpre.
    destruct Hshape as (c1 & z1 & cells1 & rest & _ & _ & Hlog & Hf & _ & HF & _).
    inversion Hlog; subst c1 cells1. inversion Hf; subst pts. simpl SHAPE.
    destruct pre as [|p pre]; [contradiction|].
    simpl in Heq. inversion Heq; subst p cells.
    apply Forall2_app_inv_l in HF.
    destruct HF as (r1 & r2 & _ & H2 & ->).
    inversion H2 as [|? va ? r3 (za & Hza & Hva) H3]; subst.
    inversion H3 as [|? vb ? r4 (zb & Hzb & Hvb) H4]; subst.
    inversion H4; subst.
    exists (mkPoint (fst pnt) (snd pnt) z1 :: r1), (center_of e a za).
    rewrite Hza in Hzb. inversion Hzb; subst zb. reflexivity.
Qed.

Lemma trace_ending_witness :
  exists (pre : list cell) (a b : cell),
    [(0, 0); (0, 1); (1, 1); (1, 1)] = pre ++ [a; b] /\
    in_range 5 5 a /\
    move_to_next_pixel scenario_fdr (fst a) (snd a) = Ok b /\
    (b = a \/ fst b = -1 \/ snd b = -1) /\
    fst b <= 5 /\ snd b <= 5 /\
    (b = a -> pre <> [] ->
     exists vs v,
       [mkPoint 5 95 0; center_of scenario (0, 1) 0;
        center_of scenario (1, 1) 0; center_of scenario (1, 1) 0] =
       vs ++ [v; v]).
Proof.
  apply (trace_ending scenario 3%nat (5, 95)%Q 7
           (mkFeature [mkPoint 5 95 0; center_of scenario (0, 1) 0;
                       center_of scenario (1, 1) 0;
                       center_of scenario (1, 1) 0] 7)
           [(0, 0); (0, 1); (1, 1); (1, 1)]);
    reflexivity.
Defined.

Lemma bind_fst_Raise {A B : Type} (m : M A) (k : A -> M B) (ex : exn) :
  fst m = Raise ex -> fst (bind m k) = Raise ex.
Proof.
  destruct m as [[a| |] l]; simpl; intros H; try discriminate.
  inversion H; reflexivity.
Qed.

Lemma while_not_done_S (fuel : nat) (e : env) (st : loop_state) :
  while_not_done (S fuel) e st =
  bind (loop_body e st)
       (fun p => if snd p then ret (st_array (fst p))
                 else while_not_done fuel e (fst p)).
Proof.
  simpl. destruct (loop_body e st) as [[[st' done]| |] l]; reflexivity.
Qed.

Lemma edge_step_raises (e : env) (fuel : nat) (st : loop_state) (c' : cell) :
  has_shape (fdr e) (max_row e) (max_col e) = true ->
  0 <= st_row st -> 0 <= st_col st ->
  move_to_next_pixel (fdr e) (st_row st) (st_col st) = Ok c' ->
  0 <= fst c' -> 0 <= snd c' ->
  ~ in_range (max_row e) (max_col e) c' ->
  fst (while_not_done (S (S fuel)) e st) = Raise IndexError.
Proof.
  intros Hs Hr Hc Hmove Hr' Hc' Hout.
  destruct (step_from_nonneg e (st_row st, st_col st) c' Hs Hr Hc Hmove)
    as (Hin & [Hadj1 Hadj2] & _).
  destruct c' as [row col]. simpl in Hr', Hc', Hadj1, Hadj2.
  rewrite while_not_done_S, loop_body_eq, Hmove.
  destruct (surface_value_cases (fill e) (row, col)) as [[z Hz] | Hz];
    rewrite Hz; [|reflexivity].
  rewrite bind_Ok.
  destruct ((st_row st =? row) && (st_col st =? col)
            || ((row <? 0) || (row >? max_row e))
            || ((col <? 0) || (col >? max_col e))) eqn:Hflag.
  - exfalso. apply exit_flag_iff in Hflag.
    destruct Hin as [Hin1 Hin2]. simpl in Hin1, Hin2.
    destruct Hflag as [Heq | Hflag]; [|simpl in Hflag; lia].
    inversion Heq; subst. apply Hout. split; simpl; lia.
  - cbn [fst snd].
    rewrite (first_step_raises e fuel
               (mkState row col (st_array st ++ [center_of e (row, col) z]))
               Hs Hr' Hc' Hout).
    reflexivity.
Qed.

Lemma last_cons_default {A : Type} (l : list A) :
  forall x d : A, last (x :: l) d = last l x.
Proof.
  induction l as [|y l IH]; intros x d; [reflexivity|].
  change (last (x :: y :: l) d) with (last (y :: l) d).
  rewrite (IH y d), (IH y x). reflexivity.
Qed.

Lemma prefix_then_edge_raises (e : env) (extra : nat) (c' : cell)
    (cs : list cell) :
  has_shape (fdr e) (max_row e) (max_col e) = true ->
  forall st : loop_state,
    0 <= st_row st -> 0 <= st_col st ->
    flow_prefix e (st_row st, st_col st) cs ->
    move_to_next_pixel (fdr e)
      (fst (last cs (st_row st, st_col st)))
      (snd (last cs (st_row st, st_col st))) = Ok c' ->
    0 <= fst c' -> 0 <= snd c' ->
    ~ in_range (max_row e) (max_col e) c' ->
    fst (while_not_done (length cs + 2 + extra) e st) = Raise IndexError.
Proof.
  intros Hs. induction cs as [|c1 rest IH];
    intros st Hr Hc Hpre Hmove Hr' Hc' Hout.
  - simpl in Hmove. simpl length. simpl Nat.add.
    eapply edge_step_raises; eassumption.
  - cbn [flow_prefix] in Hpre. simpl fst in Hpre. simpl snd in Hpre.
    destruct Hpre as (Hstep & Hgo & Hpre).
    destruct (not_stop_nonneg _ _ _ Hgo) as [Hr1 Hc1].
    destruct c1 as [row col]. simpl in Hr1, Hc1.
    simpl length. simpl Nat.add.
    rewrite while_not_done_S, loop_body_eq, Hstep.
    destruct (surface_value_cases (fill e) (row, col)) as [[z Hz] | Hz];
      rewrite Hz; [|reflexivity].
    rewrite bind_Ok.
    destruct ((st_row st =? row) && (st_col st =? col)
              || ((row <? 0) || (row >? max_row e))
              || ((col <? 0) || (col >? max_col e))) eqn:Hflag;
      [exfalso; apply Hgo; apply exit_flag_iff; exact Hflag|].
    simpl fst.
    apply (IH (mkState row col (st_array st ++ [center_of e (row, col) z])));
      try assumption.
    simpl st_row. simpl st_col.
    rewrite <- (last_cons_default rest (row, col) (st_row st, st_col st)).
    exact Hmove.
Qed.

(** X5.  When the flow-direction array has the raster's dimensions, a
    trace whose flow leaves the grid to the south or to the east is never
    produced: once the path from the seed's cell steps to row [max_row] or
    column [max_col] (neither index being negative), the run raises
    [IndexError], at an elevation lookup on the way or at the next
    flow-direction read. *)
Theorem south_east_exit_raises (e : env) (extra : nat) (pnt : Q * Q) (oid : Z)
    (c0 c' : cell) (cs : list cell) :
  has_shape (fdr e) (max_row e) (max_col e) = true ->
  point_to_cell e pnt = Ok c0 ->
  flow_prefix e c0 cs ->
  move_to_next_pixel (fdr e) (fst (last cs c0)) (snd (last cs c0)) = Ok c' ->
  0 <= fst c' -> 0 <= snd c' ->
  ~ in_range (max_row e) (max_col e) c' ->
  fst (trace_seed e (length cs + 2 + extra) (pnt, oid)) = Raise IndexError.
Proof.
  intros Hs Hc Hpre Hmove Hr' Hc' Hout.
  destruct (point_to_cell_nonneg _ _ _ Hc) as [Hr0 Hc0].
  destruct c0 as [row col]. simpl in Hr0, Hc0.
  enter_trace Hc.
  destruct (surface_value_cases (fill e) (row, col)) as [[z Hz] | Hz];
    rewrite Hz; [|reflexivity].
  rewrite bind_Ok. simpl fst. apply bind_fst_Raise.
  apply (prefix_then_edge_raises e extra c' cs Hs); assumption.
Qed.

Lemma south_east_exit_raises_witness :
  fst (trace_seed south_env (length (@nil cell) + 2 + 3) ((5, 95)%Q, 7)) =
  Raise IndexError.
Proof.
  apply (south_east_exit_raises south_env 3%nat (5, 95)%Q 7 (0, 0) (1, 0) []).
  - reflexivity.
  - reflexivity.
  - exact I.
  - reflexivity.
  - simpl; lia.
  - simpl; lia.
  - unfold in_range; simpl; lia.
Defined.

(** ** Georeferencing, both ways *)


Lemma trunc_Qeq (x y : Q) : (x == y)%Q -> trunc x = trunc y.
Proof.
  intros H. unfold trunc.
  destruct (Qle_bool 0 x) eqn:Hx; destruct (Qle_bool 0 y) eqn:Hy.
  - apply Qfloor_comp; exact H.
  - apply Qle_bool_iff in Hx. rewrite H in Hx.
    apply Qle_bool_iff in Hx. congruence.
  - apply Qle_bool_iff in Hy. rewrite <- H in Hy.
    apply Qle_bool_iff in Hy. congruence.
  - apply Qceiling_comp; exact H.
Qed.

(** X8.  The cell of a seed depends only on the absolute offsets of the
    seed from the upper-left corner: a seed west or north of the corner
    gets the cell of its mirror image on the raster. *)
Theorem point_to_cell_mirror (e : env) (pnt pnt' : Q * Q) :
  (Qabs (X (upper_left e) - fst pnt') == Qabs (X (upper_left e) - fst pnt))%Q ->
  (Qabs (Y (upper_left e) - snd pnt') == Qabs (Y (upper_left e) - snd pnt))%Q ->
  point_to_cell e pnt' = point_to_cell e pnt.
Proof.
  intros Hx Hy. unfold point_to_cell, float_div.
  destruct (Qeq_bool (cell_width e) 0); [reflexivity|]. simpl rbind.
  destruct (Qeq_bool (cell_height e) 0); [reflexivity|]. simpl rbind.
  rewrite !float_int_abs, !float_int_trunc. unfold Qdiv.
  f_equal. f_equal; apply trunc_Qeq; rewrite !Qabs_Qmult;
    [rewrite Hy | rewrite Hx]; reflexivity.
Qed.

Lemma point_to_cell_mirror_witness :
  point_to_cell scenario (-27, 139)%Q = point_to_cell scenario (27, 61)%Q.
Proof.
  apply (point_to_cell_mirror scenario (27, 61)%Q (-27, 139)%Q);
    vm_compute; reflexivity.
Defined.




(** ** Exceptions of a trace *)





(** ** A cycle of two cells, in general *)

Lemma two_cycle_runs (e : env) (a b : cell) (za zb : Q) :
  a <> b ->
  0 <= fst a <= max_row e -> 0 <= snd a <= max_col e ->
  0 <= fst b <= max_row e -> 0 <= snd b <= max_col e ->
  move_to_next_pixel (fdr e) (fst a) (snd a) = Ok b ->
  move_to_next_pixel (fdr e) (fst b) (snd b) = Ok a ->
  surface_value (fill e) a = Ok za ->
  surface_value (fill e) b = Ok zb ->
  forall (fuel : nat) (st : loop_state),
    (st_row st, st_col st) = a \/ (st_row st, st_col st) = b ->
    fst (while_not_done fuel e st) = OutOfFuel.
Proof.
  intros Hab Har Hac Hbr Hbc Hsa Hsb Hza Hzb.
  assert (Hgo : forall x y : cell,
             x <> y -> 0 <= fst y <= max_row e -> 0 <= snd y <= max_col e ->
             ~ stop_condition e x y)
    by (unfold stop_condition; intros x y Hxy ? ? [H | H]; [congruence | lia]).
  induction fuel as [|fuel IH]; intros st Hst; [reflexivity|].
  rewrite while_not_done_S.
  destruct Hst as [Hst | Hst].
  - rewrite <- Hst in Hsa. simpl in Hsa.
    destruct (loop_body_run e st b zb Hsa Hzb) as (done & Hb & Hdone).
    rewrite Hb, bind_Ok. cbn [fst snd].
    destruct done.
    + exfalso. apply (Hgo a b Hab Hbr Hbc). rewrite <- Hst.
      apply Hdone. reflexivity.
    + apply IH. right. simpl. symmetry. apply surjective_pairing.
  - rewrite <- Hst in Hsb. simpl in Hsb.
    destruct (loop_body_run e st a za Hsb Hza) as (done & Hb & Hdone).
    rewrite Hb, bind_Ok. cbn [fst snd].
    destruct done.
    + exfalso. apply (Hgo b a (not_eq_sym Hab) Har Hac). rewrite <- Hst.
      apply Hdone. reflexivity.
    + apply IH. left. simpl. symmetry. apply surjective_pairing.
Qed.

(** X11.  Any two distinct cells flowing into each other trap the trace:
    when the seed's cell and the cell it steps to step back and forth,
    both with indices from 0 to [max_row] and [max_col] and with a surface
    value, the trace is still running after any number of iterations. *)
Theorem two_cycle_never_ends (e : env) (pnt : Q * Q) (oid : Z) (a b : cell)
    (za zb : Q) :
  point_to_cell e pnt = Ok a ->
  a <> b ->
  0 <= fst a <= max_row e -> 0 <= snd a <= max_col e ->
  0 <= fst b <= max_row e -> 0 <= snd b <= max_col e ->
  move_to_next_pixel (fdr e) (fst a) (snd a) = Ok b ->
  move_to_next_pixel (fdr e) (fst b) (snd b) = Ok a ->
  surface_value (fill e) a = Ok za ->
  surface_value (fill e) b = Ok zb ->
  forall fuel : nat, fst (trace_seed e fuel (pnt, oid)) = OutOfFuel.
Proof.
  intros Hc Hab Har Hac Hbr Hbc Hsa Hsb Hza Hzb fuel.
  destruct a as [row col]. enter_trace Hc. rewrite Hza, bind_Ok. cbn [fst snd].
  match goal with
  | |- context [while_not_done fuel e ?s] =>
      pose proof (two_cycle_runs e (row, col) b za zb Hab Har Hac Hbr Hbc
                    Hsa Hsb Hza Hzb fuel s (or_introl eq_refl)) as Hl;
      destruct (while_not_done fuel e s) as [[pts| |] l]
  end; simpl in *; try discriminate; reflexivity.
Qed.

Lemma two_cycle_never_ends_witness :
  fst (trace_seed cycle_env 9 ((15, 95)%Q, 4)) = OutOfFuel.
Proof.
  apply (two_cycle_never_ends cycle_env (15, 95)%Q 4 (0, 1) (0, 0) 0%Q 0%Q);
    try reflexivity; try discriminate; simpl; lia.
Defined.

(** ** All seeds: the rows of the output *)

Lemma trace_seed_oid (e : env) (fuel : nat) (seed : (Q * Q) * Z) (f : feature) :
  fst (trace_seed e fuel seed) = Ok f -> ORIG_FID f = snd seed.
Proof.
  destruct seed as [pnt oid]. intros H.
  destruct (trace_seed e fuel (pnt, oid)) as [r log] eqn:Ht.
  simpl in H. subst r. apply trace_seed_Ok in Ht.
  destruct Ht as (c0 & z0 & cells & rest & _ & _ & _ & -> & _). reflexivity.
Qed.

Lemma for_read_cursor_rows (e : env) (fuel : nat) :
  forall (seeds : list ((Q * Q) * Z)) (acc : list feature)
         (r : result unit) (rows : list feature),
    for_read_cursor e fuel seeds acc = (r, rows) ->
    exists (n : nat) (new : list feature),
      rows = acc ++ new /\
      Forall2 (fun seed row => fst (trace_seed e fuel seed) = Ok row)
              (firstn n seeds) new /\
      match r with
      | Ok _ => n = length seeds
      | Raise ex =>
          exists s, nth_error seeds n = Some s /\
                    fst (trace_seed e fuel s) = Raise ex
      | OutOfFuel =>
          exists s, nth_error seeds n = Some s /\
                    fst (trace_seed e fuel s) = OutOfFuel
      end.
Proof.
  induction seeds as [|seed seeds IH]; intros acc r rows H; simpl in H.
  - inversion H; subst. exists 0%nat, []. rewrite app_nil_r.
    split; [reflexivity|]. split; [constructor | reflexivity].
  - destruct (fst (trace_seed e fuel seed)) as [f| ex |] eqn:Ht.
    + apply IH in H. destruct H as (n & new & -> & HF & Hr).
      exists (S n), (f :: new). rewrite <- app_assoc. simpl.
      split; [reflexivity|]. split; [constructor; assumption|].
      destruct r; [lia | exact Hr | exact Hr].
    + inversion H; subst. exists 0%nat, []. rewrite app_nil_r.
      split; [reflexivity|]. split; [constructor|]. exists seed. split; trivial.
    + inversion H; subst. exists 0%nat, []. rewrite app_nil_r.
      split; [reflexivity|]. split; [constructor|]. exists seed. split; trivial.
Qed.

(** X12.  When [trace_downstream_main] returns, the output holds one row
    per seed for the seeds before the first one whose trace raises (for all
    of them when none does), in the order of the input, each row being the
    trace of its seed with the seed's OID as [ORIG_FID]; the exception of
    that first seed is the one error reported, and the seeds after it are
    not traced. *)
Theorem main_rows (e : env) (fuel : nat) (seeds : list ((Q * Q) * Z))
    (out : main_outcome) :
  trace_downstream_main e fuel seeds = Ok out ->
  exists n : nat,
    Forall2 (fun seed row => fst (trace_seed e fuel seed) = Ok row)
            (firstn n seeds) (inserted_rows out) /\
    map ORIG_FID (inserted_rows out) = map snd (firstn n seeds) /\
    ((python_errors out = [] /\ n = length seeds) \/
     (exists s ex, python_errors out = [ex] /\ nth_error seeds n = Some s /\
                   fst (trace_seed e fuel s) = Raise ex)).
Proof.
  unfold trace_downstream_main. intros H.
  destruct (for_read_cursor e fuel seeds []) as [r rows] eqn:Hf.
  apply for_read_cursor_rows in Hf. destruct Hf as (n & new & -> & HF & Hr).
  simpl app in H.
  assert (Hoid : map ORIG_FID new = map snd (firstn n seeds)).
  { clear - HF. induction HF as [|s f ss fs Hsf _ IH]; [reflexivity|].
    simpl. rewrite IH, (trace_seed_oid _ _ _ _ Hsf). reflexivity. }
  destruct r as [u| ex |]; inversion H; subst out; simpl; exists n.
  - split; [exact HF|]. split; [exact Hoid|]. left. split; [reflexivity | exact Hr].
  - split; [exact HF|]. split; [exact Hoid|]. right.
    destruct Hr as (s & Hs & Hex). exists s, ex. repeat split; assumption.
Qed.

Lemma main_rows_witness :
  exists n : nat,
    Forall2 (fun seed row => fst (trace_seed scenario 5 seed) = Ok row)
            (firstn n three_seeds)
            [mkFeature [mkPoint 5 95 0; center_of scenario (0, 1) 0;
                        center_of scenario (1, 1) 0;
                        center_of scenario (1, 1) 0] 1] /\
    map ORIG_FID
        [mkFeature [mkPoint 5 95 0; center_of scenario (0, 1) 0;
                    center_of scenario (1, 1) 0;
                    center_of scenario (1, 1) 0] 1] =
    map snd (firstn n three_seeds) /\
    (([IndexError] = [] /\ n = length three_seeds) \/
     (exists s ex, [IndexError] = [ex] /\ nth_error three_seeds n = Some s /\
                   fst (trace_seed scenario 5 s) = Raise ex)).
Proof.
  apply (main_rows scenario 5%nat three_seeds
           (mkOutcome
              [mkFeature [mkPoint 5 95 0; center_of scenario (0, 1) 0;
                          center_of scenario (1, 1) 0;
                          center_of scenario (1, 1) 0] 1]
              [IndexError])).
  reflexivity.
Defined.

(** ** The tool around the traversal *)

Lemma main_never_raises (e : env) (fuel : nat) (seeds : list ((Q * Q) * Z))
    (ex : exn) :
  trace_downstream_main e fuel seeds <> Raise ex.
Proof.
  unfold trace_downstream_main.
  destruct (for_read_cursor e fuel seeds []) as [[u| ex' |] rows]; discriminate.
Qed.

(** X13.  No exception of the traversal leaves [execute]: the only
    exception it raises is [ExecuteError], exactly on a 64-bit platform
    with no input feature and with message 90148.  On any other platform it
    reports an error and inserts nothing; and a row is inserted only on a
    64-bit platform, by [trace_downstream_main] on a non-empty input. *)
Theorem execute_outcomes (architecture : string) (e : env) (fuel : nat)
    (in_features : list ((Q * Q) * Z)) :
  (forall ex, execute architecture e fuel in_features <> Propagated ex) /\
  (forall msgs,
      execute architecture e fuel in_features = ExecuteError msgs <->
      architecture = "64bit"%string /\ in_features = [] /\
      msgs = [IDMessage 90148]) /\
  (architecture <> "64bit"%string ->
   execute architecture e fuel in_features = Returned [] [Must64bit]) /\
  (forall rows msgs,
      execute architecture e fuel in_features = Returned rows msgs ->
      rows <> [] ->
      architecture = "64bit"%string /\ in_features <> [] /\
      exists out, trace_downstream_main e fuel in_features = Ok out /\
                  rows = inserted_rows out).
Proof.
  pose proof (main_never_raises e fuel in_features) as Hn.
  unfold execute.
  destruct (String.eqb_spec architecture "64bit") as [Ha | Ha];
    simpl negb; cbv iota.
  - destruct in_features as [|seed rest].
    + simpl. split; [discriminate|]. split; [|split].
      * intros msgs. split.
        -- intros H. inversion H. auto.
        -- intros (_ & _ & ->). reflexivity.
      * intros H. contradiction.
      * discriminate.
    + assert (Hcount : (Z.of_nat (length (seed :: rest)) =? 0) = false)
        by (apply Z.eqb_neq; cbn [length]; lia).
      rewrite Hcount.
      destruct (trace_downstream_main e fuel (seed :: rest)) as [out| ex |].
      * split; [discriminate|]. split; [|split].
        -- intros msgs. split; [discriminate|]. intros (_ & H & _). discriminate.
        -- intros H. contradiction.
        -- intros rows msgs H _. inversion H; subst.
           split; [reflexivity|]. split; [discriminate|].
           exists out. split; reflexivity.
      * exfalso. apply (Hn ex). reflexivity.
      * split; [discriminate|]. split; [|split].
        -- intros msgs. split; [discriminate|]. intros (_ & H & _). discriminate.
        -- intros H. contradiction.
        -- discriminate.
  - split; [discriminate|]. split; [|split].
    + intros msgs. split; [discriminate|]. intros (H & _). contradiction.
    + reflexivity.
    + intros rows msgs H Hrows. inversion H; subst. contradiction.
Qed.

Lemma execute_outcomes_witness :
  execute "32bit" scenario 5 three_seeds = Returned [] [Must64bit].
Proof.
  apply (proj1 (proj2 (proj2 (execute_outcomes "32bit" scenario 5%nat
                                three_seeds)))).
  discriminate.
Defined.

Lemma upper_ascii_idempotent (c : ascii) :
  upper_ascii (upper_ascii c) = upper_ascii c.
Proof.
  destruct c as [[] [] [] [] [] [] [] []]; reflexivity.
Qed.

Lemma upper_idempotent (s : string) : upper (upper s) = upper s.
Proof.
  induction s as [|c s IH]; [reflexivity|].
  simpl. rewrite upper_ascii_idempotent, IH. reflexivity.
Qed.

(** X14.  [get_has_z] answers ENABLED or DISABLED and nothing else.  The
    environment setting decides when, upper-cased, it is one of the two,
    whatever its case and whether or not a surface raster is given;
    otherwise the answer is ENABLED exactly when a surface raster is
    given. *)
Theorem get_has_z_answer (outputZFlag : string)
    (surface_raster : option string) :
  (get_has_z outputZFlag surface_raster = "ENABLED"%string \/
   get_has_z outputZFlag surface_raster = "DISABLED"%string) /\
  (upper outputZFlag = "ENABLED"%string ->
   get_has_z outputZFlag surface_raster = "ENABLED"%string) /\
  (upper outputZFlag = "DISABLED"%string ->
   get_has_z outputZFlag surface_raster = "DISABLED"%string) /\
  (upper outputZFlag <> "ENABLED"%string ->
   upper outputZFlag <> "DISABLED"%string ->
   get_has_z outputZFlag surface_raster =
   match surface_raster with
   | Some _ => "ENABLED"%string
   | None => "DISABLED"%string
   end) /\
  get_has_z (upper outputZFlag) surface_raster =
  get_has_z outputZFlag surface_raster.
Proof.
  unfold get_has_z. rewrite upper_idempotent.
  destruct (String.eqb_spec (upper outputZFlag) "ENABLED") as [He | He];
    destruct (String.eqb_spec (upper outputZFlag) "DISABLED") as [Hd | Hd];
    simpl orb; cbv iota.
  - rewrite He in Hd. discriminate.
  - repeat split; try (intros; congruence). left; exact He.
  - repeat split; try (intros; congruence). right; exact Hd.
  - repeat split; try (intros; congruence).
    destruct surface_raster; [left | right]; reflexivity.
Qed.

Lemma get_has_z_answer_witness :
  get_has_z "Disabled" (Some "dem.tif"%string) = "DISABLED"%string.
Proof.
  apply (proj1 (proj2 (proj2 (get_has_z_answer "Disabled"
                                (Some "dem.tif"%string))))).
  reflexivity.
Defined.

(** ** Elevations off the edge *)

Lemma np_item_wrap {A : Type} (l : list A) (i : Z) (v : A) :
  np_item l i = Ok v ->
  np_item l (i mod Z.of_nat (length l)) = Ok v /\
  0 <= i mod Z.of_nat (length l) < Z.of_nat (length l).
Proof.
  intros H. pose proof (np_item_Ok_range _ _ _ H) as [Hrange _].
  assert (Hmod : i mod Z.of_nat (length l) =
                 if i <? 0 then i + Z.of_nat (length l) else i).
  { destruct (Z.ltb_spec i 0).
    - symmetry. apply (Z.mod_unique _ _ (-1)); lia.
    - apply Z.mod_small. lia. }
  split; [|rewrite Hmod; destruct (Z.ltb_spec i 0); lia].
  revert H. unfold np_item. cbv zeta. rewrite Hmod.
  destruct (Z.ltb_spec i 0) as [Hneg | Hpos].
  - assert (E : (i + Z.of_nat (length l) <? 0) = false) by lia.
    rewrite !E. cbv iota. rewrite ?E. intros H; exact H.
  - assert (E : (i <? 0) = false) by lia.
    rewrite !E. cbv iota. rewrite ?E. intros H; exact H.
Qed.

Lemma getitem_wrap {A : Type} (a : ndarray A) (rows cols row col : Z) (v : A) :
  has_shape a rows cols = true ->
  getitem a row col = Ok v ->
  getitem a (row mod rows) (col mod cols) = Ok v /\
  in_range rows cols (row mod rows, col mod cols).
Proof.
  intros Hs H. unfold getitem in *.
  apply rbind_Ok_inv in H. destruct H as (r & Hr & Hc).
  pose proof (np_item_Ok_range _ _ _ Hr) as [_ Hin].
  apply np_item_wrap in Hr. apply np_item_wrap in Hc.
  rewrite (has_shape_rows _ _ _ Hs) in Hr.
  rewrite (has_shape_cols _ _ _ Hs _ Hin) in Hc.
  destruct Hr as [Hr Hr']. destruct Hc as [Hc Hc'].
  rewrite Hr. simpl. split; [exact Hc | split; assumption].
Qed.

(** X15.  With a surface raster of the raster's dimensions, the Z of
    every vertex of a produced trace is the elevation of a cell of the
    grid, the vertex's cell with its indices taken modulo the dimensions:
    a last vertex at row -1 or column -1 carries the elevation of the last
    row or column of the raster. *)
Theorem elevation_wraps_at_edge (e : env) (fuel : nat) (pnt : Q * Q) (oid : Z)
    (f : feature) (log : list cell) (a : ndarray Q) :
  fill e = Some a ->
  has_shape a (max_row e) (max_col e) = true ->
  trace_seed e fuel (pnt, oid) = (Ok f, log) ->
  Forall2 (fun c v =>
             in_range (max_row e) (max_col e)
                      (fst c mod max_row e, snd c mod max_col e) /\
             getitem a (fst c mod max_row e) (snd c mod max_col e)
             = Ok (Zc v))
          log (SHAPE f).
Proof.
  intros Hfill Hs H. apply trace_seed_Ok in H.
  destruct H as (c0 & z0 & cells & rest & _ & Hz0 & -> & -> & _ & HF & _).
  unfold emitted, surface_value in *. rewrite Hfill in *. simpl SHAPE.
  constructor.
  - simpl Zc. destruct (getitem_wrap _ _ _ _ _ _ Hs Hz0). split; assumption.
  - eapply Forall2_impl; [|exact HF].
    intros c v (z & Hz & ->). simpl Zc.
    destruct (getitem_wrap _ _ _ _ _ _ Hs Hz). split; assumption.
Qed.

Lemma elevation_wraps_at_edge_witness :
  Forall2 (fun c v =>
             in_range 1 1 (fst c mod 1, snd c mod 1) /\
             getitem [[5%Q]] (fst c mod 1) (snd c mod 1) = Ok (Zc v))
          [(0, 0); (-1, 0)]
          (SHAPE (mkFeature [mkPoint 5 95 5; center_of north_env (-1, 0) 5] 7)).
Proof.
  apply (elevation_wraps_at_edge north_env 1%nat (5, 95)%Q 7
           (mkFeature [mkPoint 5 95 5; center_of north_env (-1, 0) 5] 7)
           [(0, 0); (-1, 0)] [[5%Q]]);
    reflexivity.
Defined.

(** ** The D8 table *)

(** X16.  A cell moves exactly when its value is one of the eight D8
    codes; and the codes come in opposite pairs (1 and 16, 2 and 32, 4 and
    64, 8 and 128): when the cell stepped to holds the opposite code, the
    step from there comes back. *)
Theorem d8_moves_and_opposites (a : ndarray Z) (row col value : Z)
    (next : cell) :
  getitem a row col = Ok value ->
  move_to_next_pixel a row col = Ok next ->
  (In value d8_codes <-> next <> (row, col)) /\
  (In value d8_codes ->
   getitem a (fst next) (snd next) = Ok (opposite value) ->
   move_to_next_pixel a (fst next) (snd next) = Ok (row, col)).
Proof.
  intros Hv Hmove. unfold move_to_next_pixel in Hmove.
  rewrite Hv in Hmove. simpl rbind in Hmove. split.
  - split.
    + intros Hin Heq. subst next. unfold d8_codes in Hin. simpl in Hin.
      destruct Hin as [<- | [<- | [<- | [<- | [<- | [<- | [<- | [<- | []]]]]]]]];
        simpl in Hmove; inversion Hmove; lia.
    + intros Hne. unfold d8_codes. simpl.
      repeat match type of Hmove with
             | (if ?v =? ?k then _ else _) = _ =>
                 destruct (Z.eqb_spec v k); [subst; tauto|]
             end.
      inversion Hmove; subst. contradiction.
  - intros Hin Hopp. unfold move_to_next_pixel. rewrite Hopp. simpl rbind.
    unfold d8_codes in Hin. simpl in Hin.
    destruct Hin as [<- | [<- | [<- | [<- | [<- | [<- | [<- | [<- | []]]]]]]]];
      simpl in Hmove; inversion Hmove; subst next; simpl;
      f_equal; f_equal; lia.
Qed.

Lemma d8_moves_and_opposites_witness :
  (In 1 d8_codes <-> (0, 1) <> (0, 0)) /\
  (In 1 d8_codes ->
   getitem [[1; 16]] (fst (0, 1)) (snd (0, 1)) = Ok (opposite 1) ->
   move_to_next_pixel [[1; 16]] (fst (0, 1)) (snd (0, 1)) = Ok (0, 0)).
Proof.
  apply (d8_moves_and_opposites [[1; 16]] 0 0 1 (0, 1)); reflexivity.
Defined.

(** ** Elevations of the vertices *)

Lemma np_item_nth {A : Type} (l : list A) (i : Z) (v : A) :
  np_item l i = Ok v -> 0 <= i -> nth_error l (Z.to_nat i) = Some v.
Proof.
  unfold np_item. intros H Hi.
  assert (E : (i <? 0) = false) by lia.
  rewrite E in H. cbv zeta in H. rewrite ?E in H.
  destruct (false || (Z.of_nat (length l) <=? i)); [discriminate|].
  destruct (nth_error l (Z.to_nat i)); [congruence | discriminate].
Qed.

Lemma getitem_grid_value {A : Type} (a : ndarray A) (c : cell) (v : A) :
  getitem a (fst c) (snd c) = Ok v -> 0 <= fst c -> 0 <= snd c ->
  grid_value a c = Some v.
Proof.
  intros H Hr Hc. unfold getitem in H.
  apply rbind_Ok_inv in H. destruct H as (r & Hrow & Hcol).
  unfold grid_value.
  replace ((0 <=? fst c) && (0 <=? snd c)) with true by lia.
  rewrite (np_item_nth _ _ _ Hrow Hr). apply np_item_nth; assumption.
Qed.

Lemma flow_path_nonneg (e : env) (cs : list cell) :
  forall c : cell,
    0 <= fst c -> 0 <= snd c -> flow_path e c cs ->
    Forall (fun x => 0 <= fst x /\ 0 <= snd x) (removelast (c :: cs)).
Proof.
  induction cs as [|c' rest IH]; intros c Hr Hc Hpath; [contradiction|].
  cbn [flow_path] in Hpath. destruct Hpath as [_ Hpath].
  change (removelast (c :: c' :: rest)) with (c :: removelast (c' :: rest)).
  constructor; [split; assumption|].
  destruct rest as [|c'' rest]; [constructor|].
  destruct Hpath as [Hgo Hpath].
  destruct (not_stop_nonneg e c c' Hgo) as [Hr' Hc'].
  apply IH; assumption.
Qed.

(** C9, as the code has it.  In every trace produced, each vertex has its
    cell (the seed's cell for the first vertex, the cell whose centre it is
    for the others), and every cell but possibly the last has non-negative
    indices.  With a surface raster, a vertex whose cell has non-negative
    indices has for Z the raster's value at that cell; a last vertex at row
    -1 or column -1, where the raster has no value, has for Z the raster's
    value at the cell with its indices taken modulo the dimensions, on the
    last row or column.  Without a surface raster every Z is 0. *)
Theorem vertex_z_in_grid (e : env) (fuel : nat) (pnt : Q * Q) (oid : Z)
    (f : feature) (log : list cell) :
  trace_seed e fuel (pnt, oid) = (Ok f, log) ->
  (exists c0, point_to_cell e pnt = Ok c0 /\ hd_error log = Some c0) /\
  Forall2 (fun c v => v = center_of e c (Zc v)) (tl log) (tl (SHAPE f)) /\
  Forall (fun c => 0 <= fst c /\ 0 <= snd c) (removelast log) /\
  match fill e with
  | Some a =>
      Forall2 (fun c v => 0 <= fst c -> 0 <= snd c ->
                          grid_value a c = Some (Zc v))
              log (SHAPE f) /\
      (has_shape a (max_row e) (max_col e) = true ->
       Forall2 (fun c v =>
                  grid_value a (fst c mod max_row e, snd c mod max_col e)
                  = Some (Zc v))
               log (SHAPE f))
  | None => Forall (fun v => Zc v = 0%Q) (SHAPE f)
  end.
Proof.
  intros H. pose proof (trace_seed_Ok_loop _ _ _ _ _ _ H) as Hloop.
  apply trace_seed_Ok in H.
  destruct H as (c0 & z0 & cells & rest & Hc & Hz0 & -> & -> & _ & HF & _).
  simpl. split; [eauto|]. split; [|split].
  - eapply Forall2_impl; [|exact HF]. intros c v (z & _ & ->). reflexivity.
  - destruct Hloop as (c1 & z1 & pts & cells1 & Hc1 & _ & Hw & Hlog & _).
    rewrite Hc in Hc1. inversion Hc1; subst c1. inversion Hlog; subst cells1.
    apply while_not_done_path in Hw. simpl in Hw.
    rewrite <- surjective_pairing in Hw.
    destruct (point_to_cell_nonneg _ _ _ Hc) as [Hr0 Hc0].
    exact (flow_path_nonneg e cells c0 Hr0 Hc0 Hw).
  - unfold emitted, surface_value in *. destruct (fill e) as [a|].
    + split.
      * constructor; [intros; apply getitem_grid_value; assumption|].
        eapply Forall2_impl; [|exact HF]. intros c v (z & Hz & ->) Hr Hk.
        apply getitem_grid_value; assumption.
      * intros Hs.
        assert (Hwrap : forall c z,
                   getitem a (fst c) (snd c) = Ok z ->
                   grid_value a (fst c mod max_row e, snd c mod max_col e)
                   = Some z).
        { intros c z Hz.
          destruct (getitem_wrap _ _ _ _ _ _ Hs Hz) as [Hg [Hr Hk]].
          apply getitem_grid_value; simpl in *; [exact Hg | lia | lia]. }
        constructor; [apply Hwrap; exact Hz0|].
        eapply Forall2_impl; [|exact HF]. intros c v (z & Hz & ->).
        apply Hwrap; exact Hz.
    + constructor; [simpl; congruence|].
      clear - HF. induction HF as [|c v cs vs (z & Hz & ->) _ IH];
        constructor; [simpl; congruence | exact IH].
Qed.

Lemma vertex_z_in_grid_witness :
  (exists c0, point_to_cell slope_env (5, 95)%Q = Ok c0 /\
              hd_error [(0, 0); (0, 1); (1, 0); (1, 0)] = Some c0) /\
  Forall2 (fun c v => v = center_of slope_env c (Zc v))
          (tl [(0, 0); (0, 1); (1, 0); (1, 0)])
          (tl (mkPoint 5 95 4 ::
               centers slope_env [(0, 1); (1, 0); (1, 0)] [3; 2; 2]%Q)) /\
  Forall (fun c => 0 <= fst c /\ 0 <= snd c)
         (removelast [(0, 0); (0, 1); (1, 0); (1, 0)]) /\
  Forall2 (fun c v => 0 <= fst c -> 0 <= snd c ->
                      grid_value [[4; 3]; [2; 1]]%Q c = Some (Zc v))
          [(0, 0); (0, 1); (1, 0); (1, 0)]
          (mkPoint 5 95 4 ::
           centers slope_env [(0, 1); (1, 0); (1, 0)] [3; 2; 2]%Q) /\
  (has_shape [[4; 3]; [2; 1]]%Q 2 2 = true ->
   Forall2 (fun c v => grid_value [[4; 3]; [2; 1]]%Q (fst c mod 2, snd c mod 2)
                       = Some (Zc v))
           [(0, 0); (0, 1); (1, 0); (1, 0)]
           (mkPoint 5 95 4 ::
            centers slope_env [(0, 1); (1, 0); (1, 0)] [3; 2; 2]%Q)).
Proof.
  apply (vertex_z_in_grid slope_env 3%nat (5, 95)%Q 9
           (mkFeature (mkPoint 5 95 4 ::
                       centers slope_env [(0, 1); (1, 0); (1, 0)]
                               [3; 2; 2]%Q) 9)
           [(0, 0); (0, 1); (1, 0); (1, 0)]).
  reflexivity.
Defined.

(** C9 does not hold as worded.  On two rows, the first flowing north,
    with elevations 10 and 20, the trace from the first row completes with
    a second vertex at row -1: the surface has no value at that cell, and
    the vertex carries 20, the elevation of the last row, read by numpy's
    wrap-around before the bounds test. *)
Lemma vertex_z_off_grid :
  fill wrap_env = Some [[10]; [20]]%Q /\
  has_shape [[10]; [20]]%Q (max_row wrap_env) (max_col wrap_env) = true /\
  trace_seed wrap_env 1 ((5, 95)%Q, 7) =
  (Ok (mkFeature [mkPoint 5 95 10; center_of wrap_env (-1, 0) 20] 7),
   [(0, 0); (-1, 0)]) /\
  ~ in_range (max_row wrap_env) (max_col wrap_env) (-1, 0) /\
  grid_value [[10]; [20]]%Q (-1, 0) = None /\
  grid_value [[10]; [20]]%Q (1, 0) = Some 20%Q.
Proof.
  split; [reflexivity|]. split; [reflexivity|]. split; [reflexivity|].
  split; [unfold in_range; simpl; lia|]. split; reflexivity.
Qed.
